(** * Envisage: extension point bindings and the plugin manager's filter

    A shallow embedding of [enthought/envisage/extension_point_binding.py]
    (the class [ExtensionPointBinding] and the factory
    [bind_extension_point]) together with the two collaborators its methods
    call, the observable object and the extension registry, and of the
    plugin manager contract exercised by
    [envisage/tests/canopy_plugin_manager_test_case.py]. *)

From stdpp Require Import gmap strings list.
From Stdlib Require Import Ascii.

Set Default Proof Using "Type".

(** ** Python values, references and exceptions *)

(** The value of an extension point: the ordered contributions. *)
Abbreviation value := (list string) (only parsing).

(** Addresses of the objects bound to, and of the binding instances. *)
Abbreviation objref := nat (only parsing).
Abbreviation bref := nat (only parsing).

(** The exceptions the modelled code can raise: an attribute looked up on
    [None] (or on an object that is no [HasTraits]), a keyword argument
    given twice in a call, and the interpreter's bound on the depth of
    nested calls. *)
Inductive exn :=
  | AttributeError
  | TypeError
  | RecursionError.

Inductive result (A : Type) :=
  | Ok (a : A)
  | Raise (e : exn).
Arguments Ok {A} a.
Arguments Raise {A} e.

(** The calls made on the two collaborators, in the order they happen. *)
Inductive event :=
  | get_extensions_call (id : string)
  | set_extensions_call (id : string) (v : value)
  | add_extension_listener_call (b : bref) (id : string)
  | set_call (o : objref) (name : string) (v : value) (notify : bool)
  | on_trait_change_call (o : objref) (b : bref) (name : string).

(** ** The state *)

(** An instance of [ExtensionPointBinding]: its three traits and the
    private flag. *)
Record ExtensionPointBinding := mkBinding {
  obj : option objref;
  extension_point : string;
  trait_name : string;
  _event_handled : bool
}.

(** Modelled from the spec: the class [HasTraits] is imported from
    [enthought.traits]. An observable object has its attributes by name,
    the comparison that decides for each trait whether an assignment
    replacing [old] by [new] counts as a change (part of the trait's
    declaration), and the handlers hooked with [on_trait_change], each the
    [_on_trait_changed] method of a binding together with the trait name it
    was hooked on. *)
Record HasTraits := mkHasTraits {
  attrs : gmap string value;
  changed : string -> option value -> value -> bool;
  trait_listeners : list (bref * string)
}.

(** Modelled from the spec: the registry's class is defined in another
    module. The extension registry has the extensions of each extension
    point and the listeners added with [add_extension_listener], each the
    [_on_extension_point_changed] method of a binding with the id it
    listens to. *)
Record ExtensionRegistry := mkRegistry {
  extensions : gmap string value;
  listeners : list (bref * string)
}.

(** [extension_registry] is the class attribute (Python's [None] is Rocq's
    [None]), [heap] holds the observable objects, [bindings] the binding
    instances in order of allocation, and [trace] the calls made on the
    collaborators so far. *)
Record World := mkWorld {
  extension_registry : option ExtensionRegistry;
  heap : gmap objref HasTraits;
  bindings : list ExtensionPointBinding;
  trace : list event
}.

Definition with_registry (r : option ExtensionRegistry) (w : World) : World :=
  mkWorld r (heap w) (bindings w) (trace w).
Definition with_heap (h : gmap objref HasTraits) (w : World) : World :=
  mkWorld (extension_registry w) h (bindings w) (trace w).
Definition with_bindings (bs : list ExtensionPointBinding) (w : World) : World :=
  mkWorld (extension_registry w) (heap w) bs (trace w).
Definition with_trace (t : list event) (w : World) : World :=
  mkWorld (extension_registry w) (heap w) (bindings w) t.

(** ** A state and exception monad

    An exception keeps the state reached when it was raised: Python undoes
    nothing. *)
Definition M (A : Type) := World -> result A * World.

Definition ret {A} (a : A) : M A := fun w => (Ok a, w).
Definition raise {A} (e : exn) : M A := fun w => (Raise e, w).
Definition bind {A B} (m : M A) (k : A -> M B) : M B :=
  fun w => match m w with
           | (Ok a, w') => k a w'
           | (Raise e, w') => (Raise e, w')
           end.

Notation "'let*' x ':=' m 'in' k" := (bind m (fun x => k))
  (at level 10, x name, m at level 100, k at level 200).
Notation "m1 ';;;' m2" := (bind m1 (fun _ => m2))
  (at level 100, m2 at level 200, right associativity).

Fixpoint for_each {A} (l : list A) (f : A -> M unit) : M unit :=
  match l with
  | [] => ret tt
  | x :: l' => f x ;;; for_each l' f
  end.

Definition record (e : event) : M unit :=
  fun w => (Ok tt, with_trace (trace w ++ [e]) w).

(** ** Accessors *)

(** The instance defaults of the class body: [obj = Any],
    [extension_point = Str], [trait_name = Str], [_event_handled = False]. *)
Definition default_binding : ExtensionPointBinding :=
  mkBinding None "" "" false.

#[global] Instance ExtensionPointBinding_inhabited : Inhabited ExtensionPointBinding :=
  populate default_binding.

(** Reading the attributes of [self]. *)
Definition attr_of (self : bref) : M ExtensionPointBinding :=
  fun w => (Ok (bindings w !!! self), w).

(** [self._event_handled = flag]. *)
Definition set_event_handled (self : bref) (flag : bool) : M unit :=
  fun w =>
    let b := bindings w !!! self in
    (Ok tt,
     with_bindings
       (<[self := mkBinding (obj b) (extension_point b) (trait_name b) flag]>
          (bindings w)) w).

(** [self.extension_registry]: any method called on [None] raises. *)
Definition the_registry : M ExtensionRegistry :=
  fun w => match extension_registry w with
           | Some r => (Ok r, w)
           | None => (Raise AttributeError, w)
           end.

(** [self.obj]: the object must be a [HasTraits] to have [set] and
    [on_trait_change]. *)
Definition the_object (o : option objref) : M (objref * HasTraits) :=
  fun w => match o with
           | Some a => match heap w !! a with
                       | Some h => (Ok (a, h), w)
                       | None => (Raise AttributeError, w)
                       end
           | None => (Raise AttributeError, w)
           end.

(** The keyword of [HasTraits.set] the binding passes by name. *)
Definition trait_change_notify : string := "trait_change_notify".

(** The bindings hooked on [name], in the order they were hooked. *)
Definition hooked (name : string) (l : list (bref * string)) : list bref :=
  map fst (filter (fun p => String.eqb (snd p) name) l).

(** ** The extension registry's read side *)

(** Modelled from the spec: [get_extensions(id)] of the registry gives the
    extensions of the point, none when nothing was contributed. *)
Definition get_extensions (id : string) : M value :=
  let* r := the_registry in
  record (get_extensions_call id) ;;;
  ret (default [] (extensions r !! id)).

(** Modelled from the spec: [add_extension_listener(listener, id)] of the
    registry, the listener being the bound method
    [_on_extension_point_changed] of [self]. *)
Definition add_extension_listener (self : bref) (id : string) : M unit :=
  let* r := the_registry in
  record (add_extension_listener_call self id) ;;;
  fun w => (Ok tt,
            with_registry
              (Some (mkRegistry (extensions r) (listeners r ++ [(self, id)]))) w).

(** Modelled from the spec: [obj.on_trait_change(handler, name)] of the
    observable object, the handler being the bound method
    [_on_trait_changed] of [self]. *)
Definition on_trait_change (o : option objref) (self : bref) (name : string) : M unit :=
  let* ah := the_object o in
  record (on_trait_change_call ah.1 self name) ;;;
  fun w => (Ok tt,
            with_heap
              (<[ah.1 := mkHasTraits (attrs ah.2) (changed ah.2)
                           (trait_listeners ah.2 ++ [(self, name)])]> (heap w)) w).

(** ** The methods of [ExtensionPointBinding]

    The two handlers are called back by the collaborators, and call them in
    turn: each method takes the collaborator's operation it calls as its
    first argument, and the knot is tied below. *)

Section Methods.

(** [registry.set_extensions] and [obj.set]. *)
Variable set_extensions : string -> value -> M unit.
Variable HasTraits_set : option objref -> string -> value -> bool -> M unit.

(** Dynamic trait change handler; [self.extension_registry.set_extensions]
    is looked up before it is called. *)
Definition _on_trait_changed (self : bref) (o : objref) (name : string)
    (old : option value) (new : value) : M unit :=
  let* me := attr_of self in
  if negb (_event_handled me) then
    let* _ := the_registry in
    set_extensions (extension_point me) new
  else ret tt.

(** Set the object's trait to the value of the extension point. The call
    is [self.obj.set(trait_change_notify=notify, **traits)] with
    [traits = {self.trait_name: value}]: [self.obj.set] is looked up first,
    and a trait named like the keyword makes the call itself raise. *)
Definition _set_trait (self : bref) (notify : bool) : M unit :=
  let* me := attr_of self in
  let* v := get_extensions (extension_point me) in
  let* _ := the_object (obj me) in
  if String.eqb (trait_name me) trait_change_notify then raise TypeError
  else HasTraits_set (obj me) (trait_name me) v notify.

(** Listener called when an extension point is changed. *)
Definition _on_extension_point_changed (self : bref) (id : string)
    (added removed : value) : M unit :=
  set_event_handled self true ;;;
  _set_trait self true ;;;
  set_event_handled self false.

(** Wire-up trait change handlers etc. *)
Definition _initialize (self : bref) : M unit :=
  let* me := attr_of self in
  on_trait_change (obj me) self (trait_name me) ;;;
  add_extension_listener self (extension_point me).

(** The inherited [HasTraits] constructor: a fresh instance with the
    given traits, the flag at its class default. *)
Definition new_binding (o : option objref) (name id : string) : M bref :=
  fun w => (Ok (length (bindings w)),
            with_bindings (bindings w ++ [mkBinding o id name false]) w).

(** Constructor. *)
Definition __init__ (o : option objref) (name id : string) : M bref :=
  let* self := new_binding o name id in
  _set_trait self false ;;;
  _initialize self ;;;
  ret self.

(** Factory function for creating bindings. *)
Definition bind_extension_point (o : option objref) (name id : string) : M bref :=
  __init__ o name id.

End Methods.

(** ** The collaborators' write side, calling the handlers back *)

(** Modelled from the spec: [set_extensions] of the registry and [set] of
    the observable object, the two operations that notify.

    [fuel] bounds the depth of nested notifications, as the interpreter's
    recursion limit does; it is spent only when a handler is called.

    [registry_set_extensions fuel id v] is [registry.set_extensions(id, v)]:
    it stores the extensions, then calls every listener of [id] with the new
    and the old extensions.

    [obj_set fuel o name v notify] is
    [o.set(trait_change_notify=notify, name=v)]: it assigns the attribute
    and, when notification is on and the assignment is a change, calls every
    handler hooked on [name]. *)
Fixpoint registry_set_extensions (fuel : nat) (id : string) (v : value)
    {struct fuel} : M unit :=
  let* r := the_registry in
  record (set_extensions_call id v) ;;;
  (fun w => (Ok tt,
             with_registry
               (Some (mkRegistry (<[id := v]> (extensions r)) (listeners r))) w)) ;;;
  for_each (hooked id (listeners r))
    (fun b =>
       match fuel with
       | O => raise RecursionError
       | S n =>
           _on_extension_point_changed (obj_set n) b id v
             (default [] (extensions r !! id))
       end)
with obj_set (fuel : nat) (o : option objref) (name : string) (v : value)
    (notify : bool) {struct fuel} : M unit :=
  let* ah := the_object o in
  record (set_call ah.1 name v notify) ;;;
  (fun w => (Ok tt,
             with_heap
               (<[ah.1 := mkHasTraits (<[name := v]> (attrs ah.2)) (changed ah.2)
                            (trait_listeners ah.2)]> (heap w)) w)) ;;;
  if notify && changed ah.2 name (attrs ah.2 !! name) v then
    for_each (hooked name (trait_listeners ah.2))
      (fun b =>
         match fuel with
         | O => raise RecursionError
         | S n =>
             _on_trait_changed (registry_set_extensions n) b ah.1 name
               (attrs ah.2 !! name) v
         end)
  else ret tt.

(** The binding class closed over its collaborators. *)
Definition on_trait_changed (fuel : nat) := _on_trait_changed (registry_set_extensions fuel).
Definition on_extension_point_changed (fuel : nat) := _on_extension_point_changed (obj_set fuel).
Definition set_trait (fuel : nat) := _set_trait (obj_set fuel).
Definition new (fuel : nat) := bind_extension_point (obj_set fuel).

(** The operations of an instance other than its constructor, as the class
    body lists them, with their arguments. *)
Inductive method :=
  | call_on_trait_changed (o : objref) (name : string) (old : option value) (new : value)
  | call_on_extension_point_changed (id : string) (added removed : value)
  | call_initialize
  | call_set_trait (notify : bool).

Definition invoke (fuel : nat) (self : bref) (m : method) : M unit :=
  match m with
  | call_on_trait_changed o name old new => on_trait_changed fuel self o name old new
  | call_on_extension_point_changed id added removed =>
      on_extension_point_changed fuel self id added removed
  | call_initialize => _initialize self
  | call_set_trait notify => set_trait fuel self notify
  end.

(** ** Observations on a state *)

(** The value of attribute [name] of the object at [a]. *)
Definition field (w : World) (a : objref) (name : string) : option value :=
  heap w !! a ≫= fun h => attrs h !! name.

(** The extensions the registry holds for [id]. *)
Definition registered (w : World) (id : string) : option value :=
  extension_registry w ≫= fun r => extensions r !! id.

(** The flag of the binding at [self]. *)
Definition handled (w : World) (self : bref) : bool :=
  _event_handled (bindings w !!! self).

(** The handler of [b] is hooked on trait [name] of the object at [a]. *)
Definition hooked_on_trait (w : World) (a : objref) (b : bref) (name : string) : Prop :=
  exists h, heap w !! a = Some h /\ (b, name) ∈ trait_listeners h.

(** The listener of [b] is registered for the extension point [id]. *)
Definition listening (w : World) (b : bref) (id : string) : Prop :=
  exists r, extension_registry w = Some r /\ (b, id) ∈ listeners r.

(** How many times the registry was written, and how many times attribute
    [name] of the object at [a] was assigned. *)
Definition is_registry_write (e : event) : bool :=
  match e with set_extensions_call _ _ => true | _ => false end.

Definition is_field_write (a : objref) (name : string) (e : event) : bool :=
  match e with
  | set_call a' name' _ _ => Nat.eqb a' a && String.eqb name' name
  | _ => false
  end.

Definition registry_writes (t : list event) : nat :=
  length (filter (fun e => is_registry_write e = true) t).

Definition field_writes (a : objref) (name : string) (t : list event) : nat :=
  length (filter (fun e => is_field_write a name e = true) t).

(** A binding for the extension point [id] whose object is observable and
    whose field is not named like the keyword of [set] and has no handler
    of another binding hooked on it. *)
Definition wired (w : World) (id : string) (b : bref) : Prop :=
  exists bd a h,
    bindings w !! b = Some bd /\ extension_point bd = id /\
    obj bd = Some a /\ heap w !! a = Some h /\
    trait_name bd <> trait_change_notify /\
    forall b', b' ∈ hooked (trait_name bd) (trait_listeners h) -> b' = b.

(** Every listener of the registry is a binding on an observable object,
    hooked on its field and alone there: the states reached from one
    without listeners by binding fields nobody is hooked on yet, by
    registry changes and by assignments. *)
Definition tidy (w : World) : Prop :=
  forall r b id,
    extension_registry w = Some r -> (b, id) ∈ listeners r ->
    exists bd a h,
      bindings w !! b = Some bd /\ extension_point bd = id /\
      obj bd = Some a /\ heap w !! a = Some h /\
      trait_name bd <> trait_change_notify /\
      hooked (trait_name bd) (trait_listeners h) = [b].

(** The part of a binding no method assigns. *)
Definition wiring (b : ExtensionPointBinding) : option objref * string * string :=
  (obj b, extension_point b, trait_name b).

(** What the collaborators' write side leaves alone: who listens to what,
    which objects exist and how they compare values, the wiring of every
    binding, and the calls already made. *)
Record frame (w w' : World) : Prop := mkFrame {
  frame_listeners :
    listeners <$> extension_registry w' = listeners <$> extension_registry w;
  frame_hooks :
    forall a, trait_listeners <$> heap w' !! a = trait_listeners <$> heap w !! a;
  frame_changed :
    forall a, changed <$> heap w' !! a = changed <$> heap w !! a;
  frame_wiring :
    wiring <$> bindings w' = wiring <$> bindings w;
  frame_trace :
    trace w `prefix_of` trace w'
}.

(** The four ways a construction can go. *)
Inductive construction (o : option objref) (name id : string) (w : World) :
    result bref -> World -> Prop :=
  | constructed a h r :
      o = Some a -> heap w !! a = Some h -> extension_registry w = Some r ->
      name <> trait_change_notify ->
      construction o name id w (Ok (length (bindings w)))
        (mkWorld
           (Some (mkRegistry (extensions r)
                    (listeners r ++ [(length (bindings w), id)])))
           (<[a := mkHasTraits (<[name := default [] (extensions r !! id)]> (attrs h))
                     (changed h)
                     (trait_listeners h ++ [(length (bindings w), name)])]> (heap w))
           (bindings w ++ [mkBinding (Some a) id name false])
           (trace w ++ [get_extensions_call id;
                        set_call a name (default [] (extensions r !! id)) false;
                        on_trait_change_call a (length (bindings w)) name;
                        add_extension_listener_call (length (bindings w)) id]))
  | no_registry :
      extension_registry w = None ->
      construction o name id w (Raise AttributeError)
        (mkWorld None (heap w) (bindings w ++ [mkBinding o id name false]) (trace w))
  | no_object r :
      extension_registry w = Some r ->
      (forall a, o = Some a -> heap w !! a = None) ->
      construction o name id w (Raise AttributeError)
        (mkWorld (Some r) (heap w) (bindings w ++ [mkBinding o id name false])
           (trace w ++ [get_extensions_call id]))
  | keyword_twice a h r :
      o = Some a -> heap w !! a = Some h -> extension_registry w = Some r ->
      name = trait_change_notify ->
      construction o name id w (Raise TypeError)
        (mkWorld (Some r) (heap w) (bindings w ++ [mkBinding o id name false])
           (trace w ++ [get_extensions_call id])).

(** The calls a failed construction may have made: none that writes or
    subscribes. *)
Definition reads_only (e : event) : Prop :=
  exists id, e = get_extensions_call id.

(** ** Worlds used in the examples *)

Definition always : string -> option value -> value -> bool := fun _ _ _ => true.

(** A registry with two contributions to ["views"] and an object at
    address 7 with no attribute set; no binding yet. *)
Definition r0 : ExtensionRegistry := mkRegistry {[ "views" := ["a"; "b"] ]} [].
Definition h0 : HasTraits := mkHasTraits ∅ always [].
Definition w0 : World := mkWorld (Some r0) {[ 7 := h0 ]} [] [].

(** [w0] after [bind_extension_point(obj, "views", "views")], and its
    parts. *)
Definition w1 : World := (new 0 (Some 7) "views" "views" w0).2.
Definition r1 : ExtensionRegistry :=
  mkRegistry {[ "views" := ["a"; "b"] ]} [(0, "views")].
Definition h1 : HasTraits :=
  mkHasTraits {[ "views" := ["a"; "b"] ]} always [(0, "views")].
Definition bd1 : ExtensionPointBinding := mkBinding (Some 7) "views" "views" false.

(** [w0] and [w1] with the class attribute at [None]. *)
Definition w0_no_registry : World := with_registry None w0.
Definition w1_no_registry : World := with_registry None w1.

(** [w1] after [binding.obj = None]. *)
Definition w1_no_object : World :=
  with_bindings [mkBinding None "views" "views" false] w1.

(** The states left by a listener that raised: on the registry read in
    [w1_no_registry], on the field write in [w1_no_object] when the registry
    is given new extensions. *)
Definition after_failed_read : World :=
  (on_extension_point_changed 1 0 "views" ["c"] ["a"; "b"] w1_no_registry).2.
Definition after_failed_write : World :=
  (registry_set_extensions 2 "views" ["c"] w1_no_object).2.

(** An object that notifies only when the value assigned differs from the
    one the attribute holds, as a trait does by default. *)
Definition differs : string -> option value -> value -> bool :=
  fun _ old new => negb (bool_decide (old = Some new)).

(** One field bound twice with the factory. On [w1], the field ["views"]
    of the object is bound again, to the extension point ["actions"]; and
    on an object that compares values, ["views"] is bound to the extension
    point ["views"] twice. *)
Definition w1_shared : World := (new 0 (Some 7) "views" "actions" w1).2.
Definition h0_differs : HasTraits := mkHasTraits ∅ differs [].
Definition w0_differs : World := mkWorld (Some r0) {[ 7 := h0_differs ]} [] [].
Definition w1_differs : World := (new 0 (Some 7) "views" "views" w0_differs).2.
Definition w1_differs_shared : World := (new 0 (Some 7) "views" "views" w1_differs).2.

(** ** The plugin manager

    The test case imports [envisage.canopy_plugin_manager] and
    [envisage.plugin]; what it expects of them and what the specification
    says of them is the contract modelled here. *)
Module Manager.

(** Modelled from the spec: the class [Plugin] of [envisage.plugin]. A
    plugin has an identity and the two status flags; whether
    its start and stop operations succeed is the plugin's own business,
    carried here as two booleans. *)
Record Plugin := mkPlugin {
  id : string;
  started : bool;
  stopped : bool;
  start_succeeds : bool;
  stop_succeeds : bool
}.

(** Modelled from the spec: the start and stop operations of [Plugin].
    After a successful start [started] is true, after a
    successful stop [stopped] is true, the two being exclusive; a failed
    call leaves the status unchanged. *)
Definition plugin_start (p : Plugin) : option Plugin :=
  if start_succeeds p
  then Some (mkPlugin (id p) true false (start_succeeds p) (stop_succeeds p))
  else None.

Definition plugin_stop (p : Plugin) : option Plugin :=
  if stop_succeeds p
  then Some (mkPlugin (id p) false true (start_succeeds p) (stop_succeeds p))
  else None.

(** The plugin objects by address. *)
Abbreviation pref := nat (only parsing).
Abbreviation Store := (list Plugin) (only parsing).

(** *** Shell patterns *)

Inductive class_item :=
  | One (c : ascii)
  | Range (lo hi : ascii).

Inductive glob :=
  | Star
  | Question
  | Literal (c : ascii)
  | Class (negated : bool) (items : list class_item).

(** The members of a character class up to the closing bracket, and what
    follows it. *)
Fixpoint until_close (s : list ascii) : option (list ascii * list ascii) :=
  match s with
  | [] => None
  | c :: s' =>
      if Ascii.eqb c "]" then Some ([], s')
      else match until_close s' with
           | Some (body, rest) => Some (c :: body, rest)
           | None => None
           end
  end.

(** After an opening bracket: an optional [!], an optional leading [']']
    that stands for itself, then the members up to the closing bracket.
    The result is whether the class is negated, its members, and how many
    characters were read, the closing bracket included. *)
Definition class_body (s : list ascii) : option (bool * list ascii * nat) :=
  let '(neg, s1) :=
    match s with
    | c :: s' => if Ascii.eqb c "!" then (true, s') else (false, s)
    | [] => (false, s)
    end in
  let '(first, s2) :=
    match s1 with
    | c :: s' => if Ascii.eqb c "]" then ([c], s') else ([], s1)
    | [] => ([], s1)
    end in
  match until_close s2 with
  | Some (body, _) =>
      Some (neg, first ++ body,
            (if neg then 1 else 0) + length (first ++ body) + 1)
  | None => None
  end.

(** The members of a class: single characters and ranges [lo-hi]; a
    dash with nothing after it stands for itself. *)
Fixpoint class_items (s : list ascii) : list class_item :=
  match s with
  | lo :: s1 =>
      match s1 with
      | dash :: hi :: s2 =>
          if Ascii.eqb dash "-" then Range lo hi :: class_items s2
          else One lo :: class_items s1
      | _ => One lo :: class_items s1
      end
  | [] => []
  end.

Definition in_item (c : ascii) (i : class_item) : bool :=
  match i with
  | One c' => Ascii.eqb c c'
  | Range lo hi =>
      (nat_of_ascii lo <=? nat_of_ascii c) && (nat_of_ascii c <=? nat_of_ascii hi)
  end.

(** The pattern as a sequence of items, read from left to right; [skip]
    counts the characters still to pass over, those of a class just read.
    An opening bracket that is never closed stands for itself. *)
Fixpoint translate_from (skip : nat) (pat : list ascii) : list glob :=
  match pat with
  | [] => []
  | c :: rest =>
      match skip with
      | S k => translate_from k rest
      | O =>
          if Ascii.eqb c "*" then Star :: translate_from 0 rest
          else if Ascii.eqb c "?" then Question :: translate_from 0 rest
          else if Ascii.eqb c "[" then
            match class_body rest with
            | Some (neg, body, read) =>
                Class neg (class_items body) :: translate_from read rest
            | None => Literal c :: translate_from 0 rest
            end
          else Literal c :: translate_from 0 rest
      end
  end.

Definition translate (pat : string) : list glob :=
  translate_from 0 (String.list_ascii_of_string pat).

(** Matching the whole name: [*] any run of characters, [?] any one
    character, a class one of (or none of) its members, any other
    character itself and nothing else, upper and lower case apart. *)
Fixpoint glob_match (g : list glob) (s : list ascii) {struct g} : bool :=
  match g with
  | [] => match s with [] => true | _ :: _ => false end
  | Star :: g' =>
      (fix star (s : list ascii) : bool :=
         glob_match g' s ||
         match s with
         | [] => false
         | _ :: s' => star s'
         end) s
  | Question :: g' =>
      match s with
      | _ :: s' => glob_match g' s'
      | [] => false
      end
  | Literal c :: g' =>
      match s with
      | c' :: s' => Ascii.eqb c c' && glob_match g' s'
      | [] => false
      end
  | Class negated items :: g' =>
      match s with
      | c' :: s' => xorb negated (existsb (in_item c') items) && glob_match g' s'
      | [] => false
      end
  end.

(** Modelled from the spec: the matching of a plugin id against a pattern,
    done inside the manager; the spec has it as shell matching on the id,
    case-sensitive. *)
Definition fnmatch (name pat : string) : bool :=
  glob_match (translate pat) (String.list_ascii_of_string name).

Definition matches_some (patterns : list string) (name : string) : bool :=
  existsb (fnmatch name) patterns.

(** *** The manager *)

(** Modelled from the spec: the class [CanopyPluginManager]. A manager
    holds its plugins by address, in order, with the two pattern
    lists it was given ([None] when the argument was left out). *)
Record PluginManager := mkManager {
  plugins : list pref;
  include : option (list string);
  exclude : option (list string)
}.

(** The id of the plugin at [r]. *)
Definition id_at (s : Store) (r : pref) : option string := id <$> s !! r.

(** Whether the plugin with this id passes each stage of the filter. *)
Definition included (inc : option (list string)) (name : string) : bool :=
  match default [] inc with
  | [] => true
  | pats => matches_some pats name
  end.

Definition not_excluded (exc : option (list string)) (name : string) : bool :=
  match default [] exc with
  | [] => true
  | pats => negb (matches_some pats name)
  end.

Definition passes (s : Store) (f : string -> bool) (r : pref) : bool :=
  match id_at s r with
  | Some name => f name
  | None => false
  end.

(** Modelled from the spec: the manager's constructor. The
    candidates are the plugins given explicitly followed by those each
    entry of the path resolves to, in path order; the include patterns
    are applied first, the exclude patterns after them. *)
Definition create (s : Store) (resolve : string -> list pref)
    (explicit : list pref) (plugin_path : list string)
    (inc exc : option (list string)) : PluginManager :=
  let candidates := explicit ++ concat (map resolve plugin_path) in
  let kept := List.filter (passes s (included inc)) candidates in
  mkManager (List.filter (passes s (not_excluded exc)) kept) inc exc.

(** [get_plugin(id)]: the first held plugin with that id, if any. *)
Definition get_plugin (m : PluginManager) (s : Store) (name : string) : option pref :=
  List.find (passes s (String.eqb name)) (plugins m).

(** Modelled from the spec: [start()] and [stop()] of the manager. Every
    held plugin is told to start, in order, or to stop, in
    reverse order; a plugin whose call fails keeps its status and the
    others are still called; the failures are reported together once the
    pass is over. *)
Fixpoint call_each (op : Plugin -> option Plugin) (l : list pref) (s : Store)
    : list pref * Store :=
  match l with
  | [] => ([], s)
  | r :: l' =>
      match s !! r with
      | Some p =>
          match op p with
          | Some p' => call_each op l' (<[r := p']> s)
          | None => let '(failed, s') := call_each op l' s in (r :: failed, s')
          end
      | None => call_each op l' s
      end
  end.

(** The outcome of a pass: it returns, or it reports the plugins whose
    call failed. *)
Inductive outcome :=
  | Returned
  | Failed (failures : list pref).

Definition report (failed : list pref) : outcome :=
  match failed with
  | [] => Returned
  | _ :: _ => Failed failed
  end.

Definition start (m : PluginManager) (s : Store) : outcome * Store :=
  let '(failed, s') := call_each plugin_start (plugins m) s in (report failed, s').

Definition stop (m : PluginManager) (s : Store) : outcome * Store :=
  let '(failed, s') := call_each plugin_stop (rev (plugins m)) s in (report failed, s').

(** The fixture of the test case: the three plugins found in the eggs
    directory, in the order the tests expect them. *)
Definition eggs : Store :=
  [ mkPlugin "acme.foo" false false true true;
    mkPlugin "acme.bar" false false true true;
    mkPlugin "acme.baz" false false true true ].

Definition eggs_dir : string := "eggs".

Definition find_eggs (entry : string) : list pref :=
  if String.eqb entry eggs_dir then [0; 1; 2] else [].

(** [CanopyPluginManager(plugin_path=[eggs_dir], include=..., exclude=...)]
    and the list of ids the tests compare. *)
Definition canopy (inc exc : option (list string)) : PluginManager :=
  create eggs find_eggs [] [eggs_dir] inc exc.

Definition ids (m : PluginManager) (s : Store) : list string :=
  omap (id_at s) (plugins m).

(** [_test_start_and_stop(plugin_manager, expected)] of the test case: the
    ids are the expected ones; after [start()] every expected id is found
    by [get_plugin] and its plugin is started; after [stop()] every one is
    found and stopped. *)
Definition found_with (flag : Plugin -> bool) (m : PluginManager) (s : Store)
    (name : string) : bool :=
  match get_plugin m s name with
  | Some r => match s !! r with Some p => flag p | None => false end
  | None => false
  end.

Definition returned (o : outcome) : bool :=
  match o with Returned => true | Failed _ => false end.

Definition _test_start_and_stop (m : PluginManager) (s : Store)
    (expected : list string) : bool :=
  bool_decide (expected = ids m s) &&
  returned (start m s).1 &&
  forallb (found_with started m (start m s).2) expected &&
  returned (stop m (start m s).2).1 &&
  forallb (found_with stopped m (stop m (start m s).2).2) expected.

Definition test_only_find_plugins_whose_ids_are_in_the_include_list : bool :=
  _test_start_and_stop (canopy (Some ["acme.foo"; "acme.bar"]) None) eggs
    ["acme.foo"; "acme.bar"].

Definition test_only_find_plugins_matching_a_wildcard_in_the_include_list : bool :=
  _test_start_and_stop (canopy (Some ["acme.b*"]) None) eggs
    ["acme.bar"; "acme.baz"].

Definition test_ignore_plugins_whose_ids_are_in_the_exclude_list : bool :=
  _test_start_and_stop (canopy None (Some ["acme.foo"; "acme.baz"])) eggs
    ["acme.bar"].

Definition test_ignore_plugins_matching_a_wildcard_in_the_exclude_list : bool :=
  _test_start_and_stop (canopy None (Some ["acme.b*"])) eggs
    ["acme.foo"].

End Manager.

(** ** Shell matching, as a relation *)

(** Modelled from the spec: the matching of an id against a pattern is
    shell matching, with [*] for any run of characters, [?] for any one
    character and character classes, not regular expressions, and it tells
    upper from lower case. This is that matching said without an
    algorithm, for the manager's matcher to be compared with: a class is
    its members between brackets, an exclamation mark before them for
    negation, and its closing bracket is the first one after the first
    member; an opening bracket that is never closed stands for itself. *)
Module Shell.

(** The members of a class are read from left to right: three characters
    [lo-hi] are a range, any other character is a member by itself. *)
Definition starts_range (body : list ascii) : Prop :=
  exists lo hi rest, body = lo :: "-"%char :: hi :: rest.

Inductive member (c : ascii) : list ascii -> Prop :=
  | in_range lo hi rest :
      nat_of_ascii lo <= nat_of_ascii c -> nat_of_ascii c <= nat_of_ascii hi ->
      member c (lo :: "-"%char :: hi :: rest)
  | past_range lo hi rest :
      member c rest -> member c (lo :: "-"%char :: hi :: rest)
  | itself rest :
      ~ starts_range (c :: rest) -> member c (c :: rest)
  | past_one c' rest :
      ~ starts_range (c' :: rest) -> member c rest -> member c (c' :: rest).

(** What stands between the brackets of a class, an exclamation mark
    for negation apart: at least one character, and no closing bracket
    except in the first place. *)
Definition bang (negated : bool) : list ascii :=
  if negated then ["!"%char] else [].

Definition class_shape (negated : bool) (body : list ascii) : Prop :=
  match body with
  | [] => False
  | c :: more =>
      ("]"%char ∉ more) /\ (negated = false -> c <> "!"%char)
  end.

(** An opening bracket that no closing bracket answers. *)
Definition unclosed (pat : list ascii) : Prop :=
  forall negated body rest,
    class_shape negated body -> pat <> bang negated ++ body ++ "]"%char :: rest.

(** A character with no meaning of its own in a pattern. *)
Definition ordinary (c : ascii) : Prop :=
  c <> "*"%char /\ c <> "?"%char /\ c <> "["%char.

(** [matches pat name]: the whole of [name] matches the pattern. *)
Inductive matches : list ascii -> list ascii -> Prop :=
  | matches_end : matches [] []
  | matches_star pat run name :
      matches pat name -> matches ("*"%char :: pat) (run ++ name)
  | matches_question pat c name :
      matches pat name -> matches ("?"%char :: pat) (c :: name)
  | matches_class negated body pat c name :
      class_shape negated body ->
      (member c body <-> negated = false) ->
      matches pat name ->
      matches ("["%char :: bang negated ++ body ++ "]"%char :: pat) (c :: name)
  | matches_bracket pat name :
      unclosed pat -> matches pat name ->
      matches ("["%char :: pat) ("["%char :: name)
  | matches_itself c pat name :
      ordinary c -> matches pat name -> matches (c :: pat) (c :: name).

(** The same on strings: the id [name] matches the pattern [pat]. *)
Definition glob (pat name : string) : Prop :=
  matches (String.list_ascii_of_string pat) (String.list_ascii_of_string name).

End Shell.

(** ** Further observations *)

(** No flag is set in [w'] that was not set in [w]. *)
Definition calm (w w' : World) : Prop :=
  forall b, handled w' b = true -> handled w b = true.

(** A computation that, when it returns, has set no flag. *)
Definition quiet {A} (m : M A) : Prop :=
  forall w a w', m w = (Ok a, w') -> calm w w'.

(** The bound field of every listening binding holds what the registry
    holds for the binding's extension point, and no listening binding has
    its flag set. *)
Definition in_sync (w : World) : Prop :=
  forall r b id,
    extension_registry w = Some r -> (b, id) ∈ listeners r ->
    exists bd a,
      bindings w !! b = Some bd /\ obj bd = Some a /\
      _event_handled bd = false /\
      field w a (trait_name bd) = Some (default [] (extensions r !! id)).

(** Every handler hooked on an object is the handler of a binding of that
    object and field whose listener is registered. *)
Definition hooks_listen (w : World) : Prop :=
  forall r a h b name,
    extension_registry w = Some r -> heap w !! a = Some h ->
    (b, name) ∈ trait_listeners h ->
    exists bd,
      bindings w !! b = Some bd /\ obj bd = Some a /\ trait_name bd = name /\
      (b, extension_point bd) ∈ listeners r.

(** The invariant of a program that only binds fields nobody is hooked on:
    a registry is installed, and the subscriptions on both sides belong to
    bindings that are alone on their field and in sync. *)
Definition bound (w : World) : Prop :=
  is_Some (extension_registry w) /\ tidy w /\ hooks_listen w /\ in_sync w.

(** A state with a registry in which nobody is subscribed yet. *)
Definition unbound (w : World) : Prop :=
  (exists r, extension_registry w = Some r /\ listeners r = []) /\
  forall a h, heap w !! a = Some h -> trait_listeners h = [].

(** What a program does with bindings: bind a field nobody is hooked on,
    give the registry new extensions, assign a field with notification,
    the assignment being a change. The depths are those the interpreter
    always has left: two nested calls under [set_extensions], three under
    [set]. *)
Inductive step (w : World) : World -> Prop :=
  | step_bind fuel a h name id :
      heap w !! a = Some h ->
      hooked name (trait_listeners h) = [] ->
      name <> trait_change_notify ->
      step w (new fuel (Some a) name id w).2
  | step_registry n id v :
      step w (registry_set_extensions (S (S n)) id v w).2
  | step_field n a h name v :
      heap w !! a = Some h ->
      changed h name (attrs h !! name) v = true ->
      step w (obj_set (S (S (S n))) (Some a) name v true w).2.

(** [w1] after two more bindings on the object, one for ["views"] again
    and one for ["actions"]; then the registry is given [["c"]] for
    ["views"], then the user assigns [["x"]] to the second field bound to
    ["views"]. *)
Definition w2 : World := (new 0 (Some 7) "mirror" "views" w1).2.
Definition w3 : World := (new 0 (Some 7) "actions" "actions" w2).2.
Definition w4 : World := (registry_set_extensions 2 "views" ["c"] w3).2.
Definition w5 : World := (obj_set 3 (Some 7) "mirror" ["x"] true w4).2.
Definition r3 : ExtensionRegistry :=
  mkRegistry {[ "views" := ["a"; "b"] ]} [(0, "views"); (1, "views"); (2, "actions")].
Definition r5 : ExtensionRegistry :=
  mkRegistry {[ "views" := ["x"] ]} [(0, "views"); (1, "views"); (2, "actions")].

(** The characters the shell matching gives a meaning to, and a pattern
    that has none of them: a plain id. *)
Definition special (c : ascii) : bool :=
  Ascii.eqb c "*" || Ascii.eqb c "?" || Ascii.eqb c "[".

Definition plain (pat : string) : bool :=
  forallb (fun c => negb (special c)) (String.list_ascii_of_string pat).

(** * Proofs *)

(** ** Running the monad *)

Ltac msimpl :=
  cbv [bind ret raise record attr_of set_event_handled the_registry the_object
       get_extensions add_extension_listener on_trait_change new_binding
       with_registry with_heap with_bindings with_trace];
  cbn [extension_registry heap bindings trace fst snd obj extension_point
       trait_name _event_handled attrs changed trait_listeners extensions
       listeners negb andb].

Tactic Notation "msimpl" "in" hyp(H) :=
  cbv [bind ret raise record attr_of set_event_handled the_registry the_object
       get_extensions add_extension_listener on_trait_change new_binding
       with_registry with_heap with_bindings with_trace] in H;
  cbn [extension_registry heap bindings trace fst snd obj extension_point
       trait_name _event_handled attrs changed trait_listeners extensions
       listeners negb andb] in H.

Lemma for_each_cons {A} (x : A) l (f : A -> M unit) w :
  for_each (x :: l) f w =
  match f x w with
  | (Ok _, w') => for_each l f w'
  | (Raise e, w') => (Raise e, w')
  end.
Proof. reflexivity. Qed.

Lemma for_each_noop {A} (l : list A) (f : A -> M unit) w :
  (forall x, x ∈ l -> f x w = (Ok tt, w)) -> for_each l f w = (Ok tt, w).
Proof.
  induction l as [|x l IH]; intros H; [done|].
  rewrite for_each_cons, (H x) by left.
  apply IH. intros y Hy. apply H. by right.
Qed.

Lemma registry_set_extensions_unfold fuel id v w :
  registry_set_extensions fuel id v w =
  (let* r := the_registry in
   record (set_extensions_call id v) ;;;
   (fun w => (Ok tt,
              with_registry
                (Some (mkRegistry (<[id := v]> (extensions r)) (listeners r))) w)) ;;;
   for_each (hooked id (listeners r))
     (fun b =>
        match fuel with
        | O => raise RecursionError
        | S n =>
            _on_extension_point_changed (obj_set n) b id v
              (default [] (extensions r !! id))
        end)) w.
Proof. by destruct fuel. Qed.

Lemma obj_set_unfold fuel o name v notify w :
  obj_set fuel o name v notify w =
  (let* ah := the_object o in
   record (set_call ah.1 name v notify) ;;;
   (fun w => (Ok tt,
              with_heap
                (<[ah.1 := mkHasTraits (<[name := v]> (attrs ah.2)) (changed ah.2)
                             (trait_listeners ah.2)]> (heap w)) w)) ;;;
   if notify && changed ah.2 name (attrs ah.2 !! name) v then
     for_each (hooked name (trait_listeners ah.2))
       (fun b =>
          match fuel with
          | O => raise RecursionError
          | S n =>
              _on_trait_changed (registry_set_extensions n) b ah.1 name
                (attrs ah.2 !! name) v
          end)
   else ret tt) w.
Proof. by destruct fuel. Qed.

#[local] Arguments obj_set : simpl never.
#[local] Arguments registry_set_extensions : simpl never.

(** ** The frame of the write side *)

Lemma frame_refl w : frame w w.
Proof. by split. Qed.

Lemma frame_trans w1 w2 w3 : frame w1 w2 -> frame w2 w3 -> frame w1 w3.
Proof.
  intros [L1 H1 C1 W1 T1] [L2 H2 C2 W2 T2]. split.
  - by rewrite L2.
  - intros a. by rewrite H2.
  - intros a. by rewrite C2.
  - by rewrite W2.
  - by etrans.
Qed.

Lemma wiring_insert_flag (l : list ExtensionPointBinding) i flag :
  wiring <$> <[i := mkBinding (obj (l !!! i)) (extension_point (l !!! i))
                      (trait_name (l !!! i)) flag]> l = wiring <$> l.
Proof.
  rewrite list_fmap_insert.
  destruct (l !! i) as [b|] eqn:E.
  - apply list_insert_id. rewrite list_lookup_fmap, E.
    by rewrite (list_lookup_total_correct _ _ _ E).
  - apply list_insert_ge. rewrite length_fmap. by apply lookup_ge_None.
Qed.

Lemma frame_set_event_handled self flag w :
  frame w (set_event_handled self flag w).2.
Proof. split; msimpl; try done. apply wiring_insert_flag. Qed.

Lemma frame_record e w : frame w (record e w).2.
Proof. split; msimpl; try done. by apply prefix_app_r. Qed.

Lemma frame_store_extensions r ext e w :
  extension_registry w = Some r ->
  frame w (mkWorld (Some (mkRegistry ext (listeners r))) (heap w) (bindings w)
             (trace w ++ [e])).
Proof.
  intros Hr. split; msimpl; try done.
  - by rewrite Hr.
  - by apply prefix_app_r.
Qed.

Lemma frame_store_attrs a h at' e w :
  heap w !! a = Some h ->
  frame w (mkWorld (extension_registry w)
             (<[a := mkHasTraits at' (changed h) (trait_listeners h)]> (heap w))
             (bindings w) (trace w ++ [e])).
Proof.
  intros Hh. split; msimpl; try done.
  - intros a'. destruct (decide (a = a')) as [<-|Hne].
    + by rewrite lookup_insert_eq, Hh.
    + by rewrite lookup_insert_ne.
  - intros a'. destruct (decide (a = a')) as [<-|Hne].
    + by rewrite lookup_insert_eq, Hh.
    + by rewrite lookup_insert_ne.
  - by apply prefix_app_r.
Qed.

Lemma frame_for_each {A} (l : list A) (f : A -> M unit) :
  (forall x w, frame w (f x w).2) ->
  forall w, frame w (for_each l f w).2.
Proof.
  intros Hf. induction l as [|x l IH]; intros w; [apply frame_refl|].
  rewrite for_each_cons. specialize (Hf x w).
  destruct (f x w) as [[[]|e] w']; cbn in *; [|done].
  eapply frame_trans; [done|apply IH].
Qed.

Lemma frame_get_extensions id w : frame w (get_extensions id w).2.
Proof.
  msimpl. destruct (extension_registry w); cbn; [|apply frame_refl].
  apply (frame_record (get_extensions_call id) w).
Qed.

Section FrameOfMethods.

Variable set_extensions : string -> value -> M unit.
Variable HasTraits_set : option objref -> string -> value -> bool -> M unit.
Hypothesis frame_set_extensions : forall id v w, frame w (set_extensions id v w).2.
Hypothesis frame_HasTraits_set :
  forall o name v notify w, frame w (HasTraits_set o name v notify w).2.

Lemma frame_on_trait_changed self o name old new w :
  frame w (_on_trait_changed set_extensions self o name old new w).2.
Proof using frame_set_extensions.
  unfold _on_trait_changed. msimpl.
  destruct (_event_handled (bindings w !!! self)); cbn; [apply frame_refl|].
  destruct (extension_registry w); cbn; [|apply frame_refl].
  apply frame_set_extensions.
Qed.

Lemma frame_set_trait self notify w :
  frame w (_set_trait HasTraits_set self notify w).2.
Proof using frame_HasTraits_set.
  unfold _set_trait. unfold bind at 1. unfold attr_of at 1.
  unfold bind at 1. pose proof (frame_get_extensions (extension_point (bindings w !!! self)) w) as H.
  destruct (get_extensions _ w) as [[v|e] w']; cbn in *; [|done].
  eapply frame_trans; [done|].
  unfold bind, the_object.
  destruct (obj (bindings w !!! self)) as [a|]; [|apply frame_refl].
  destruct (heap w' !! a); [|apply frame_refl].
  destruct (String.eqb _ _); [apply frame_refl|apply frame_HasTraits_set].
Qed.

Lemma frame_on_extension_point_changed self id added removed w :
  frame w (_on_extension_point_changed HasTraits_set self id added removed w).2.
Proof using frame_HasTraits_set.
  unfold _on_extension_point_changed. unfold bind at 1.
  pose proof (frame_set_event_handled self true w) as H1.
  destruct (set_event_handled self true w) as [[[]|e] w1]; cbn in H1; [|done].
  unfold bind at 1.
  pose proof (frame_set_trait self true w1) as H2.
  destruct (_set_trait _ self true w1) as [[[]|e] w2]; cbn in H2.
  - eapply frame_trans; [done|]. eapply frame_trans; [done|].
    apply frame_set_event_handled.
  - cbn. by eapply frame_trans.
Qed.

End FrameOfMethods.

(** One level of the write side: it is framed when the handlers it calls
    are. *)
Lemma frame_registry_level fuel id v w :
  (forall b removed w',
     frame w'
       (match fuel with
        | O => raise RecursionError
        | S n => _on_extension_point_changed (obj_set n) b id v removed
        end w').2) ->
  frame w (registry_set_extensions fuel id v w).2.
Proof.
  intros Hcalled. rewrite registry_set_extensions_unfold. msimpl.
  destruct (extension_registry w) as [r|] eqn:Hr; cbn; [|apply frame_refl].
  match goal with |- context [for_each ?l ?f ?w1] =>
    pose proof (frame_for_each l f (fun b w' => Hcalled b _ w') w1) as Hloop;
    destruct (for_each l f w1) as [[[]|e] w2] end;
    cbn in *; (eapply frame_trans; [|exact Hloop]);
    by apply frame_store_extensions.
Qed.

Lemma frame_object_level fuel o name v notify w :
  (forall b a old w',
     frame w'
       (match fuel with
        | O => raise RecursionError
        | S n => _on_trait_changed (registry_set_extensions n) b a name old v
        end w').2) ->
  frame w (obj_set fuel o name v notify w).2.
Proof.
  intros Hcalled. rewrite obj_set_unfold. msimpl.
  destruct o as [a|]; [|apply frame_refl].
  destruct (heap w !! a) as [h|] eqn:Hh; cbn; [|apply frame_refl].
  pose proof (frame_store_attrs a h (<[name := v]> (attrs h))
                (set_call a name v notify) w Hh) as Hw1.
  destruct (notify && changed h name (attrs h !! name) v); cbn; [|done].
  match goal with |- context [for_each ?l ?f ?w1] =>
    pose proof (frame_for_each l f (fun b w' => Hcalled b _ _ w') w1) as Hloop;
    destruct (for_each l f w1) as [[[]|e] w2] end;
    cbn in *; by eapply frame_trans.
Qed.

Lemma frame_write_side fuel :
  (forall id v w, frame w (registry_set_extensions fuel id v w).2) /\
  (forall o name v notify w, frame w (obj_set fuel o name v notify w).2).
Proof.
  induction fuel as [|n [IHr IHo]]; split; intros.
  - apply frame_registry_level. intros. apply frame_refl.
  - apply frame_object_level. intros. apply frame_refl.
  - apply frame_registry_level. intros.
    by apply frame_on_extension_point_changed.
  - apply frame_object_level. intros.
    by apply frame_on_trait_changed.
Qed.

Lemma frame_registry_set_extensions fuel id v w :
  frame w (registry_set_extensions fuel id v w).2.
Proof. apply frame_write_side. Qed.

Lemma frame_obj_set fuel o name v notify w :
  frame w (obj_set fuel o name v notify w).2.
Proof. apply frame_write_side. Qed.

(** ** What the frame preserves *)

Lemma frame_binding w w' b bd :
  frame w w' -> bindings w !! b = Some bd ->
  exists bd', bindings w' !! b = Some bd' /\ wiring bd' = wiring bd.
Proof.
  intros F Hb. pose proof (frame_wiring _ _ F) as HW.
  apply (f_equal (fun l => l !! b)) in HW.
  rewrite !list_lookup_fmap, Hb in HW. cbn in HW.
  destruct (bindings w' !! b) as [bd'|]; [|done].
  exists bd'. split; [done|]. cbn in HW. congruence.
Qed.

Lemma frame_object w w' a h :
  frame w w' -> heap w !! a = Some h ->
  exists h', heap w' !! a = Some h' /\ trait_listeners h' = trait_listeners h /\
             changed h' = changed h.
Proof.
  intros F Hh.
  pose proof (frame_hooks _ _ F a) as HL. pose proof (frame_changed _ _ F a) as HC.
  rewrite Hh in HL, HC. cbn in HL, HC.
  destruct (heap w' !! a) as [h'|]; [|done].
  exists h'. cbn in HL, HC. split; [done|]. split; congruence.
Qed.

Lemma frame_registry w w' r :
  frame w w' -> extension_registry w = Some r ->
  exists r', extension_registry w' = Some r' /\ listeners r' = listeners r.
Proof.
  intros F Hr. pose proof (frame_listeners _ _ F) as HL.
  rewrite Hr in HL. cbn in HL.
  destruct (extension_registry w') as [r'|]; [|done].
  exists r'. cbn in HL. split; [done|]. congruence.
Qed.

Lemma frame_wired w w' id b : frame w w' -> wired w id b -> wired w' id b.
Proof.
  intros F (bd & a & h & Hb & Hid & Ha & Hh & Hkw & Hpriv).
  destruct (frame_binding _ _ _ _ F Hb) as (bd' & Hb' & HW).
  destruct (frame_object _ _ _ _ F Hh) as (h' & Hh' & HL & _).
  unfold wiring in HW. injection HW as Ho He Hn.
  exists bd', a, h'. rewrite Ho, He, Hn, HL. done.
Qed.

(** ** Assigning an attribute *)

Lemma field_assigned w w' a0 n0 v h c l :
  heap w !! a0 = Some h ->
  heap w' = <[a0 := mkHasTraits (<[n0 := v]> (attrs h)) c l]> (heap w) ->
  field w' a0 n0 = Some v /\
  forall a name, (a, name) <> (a0, n0) -> field w' a name = field w a name.
Proof.
  intros Hh Hw'. unfold field. rewrite Hw'. split.
  - rewrite lookup_insert_eq. cbn. by rewrite lookup_insert_eq.
  - intros a name Hne. destruct (decide (a0 = a)) as [<-|Ha].
    + rewrite lookup_insert_eq, Hh. cbn.
      rewrite lookup_insert_ne; [done|]. intros <-. by apply Hne.
    + by rewrite lookup_insert_ne.
Qed.

(** ** The listener on a binding whose field is its own *)

Lemma on_extension_point_changed_run n self w bd r a h id added removed :
  bindings w !! self = Some bd ->
  extension_registry w = Some r ->
  obj bd = Some a ->
  heap w !! a = Some h ->
  trait_name bd <> trait_change_notify ->
  (forall b', b' ∈ hooked (trait_name bd) (trait_listeners h) -> b' = self) ->
  on_extension_point_changed (S n) self id added removed w =
  (Ok tt,
   mkWorld (Some r)
     (<[a := mkHasTraits
               (<[trait_name bd := default [] (extensions r !! extension_point bd)]>
                  (attrs h))
               (changed h) (trait_listeners h)]> (heap w))
     (<[self := mkBinding (Some a) (extension_point bd) (trait_name bd) false]>
        (bindings w))
     (trace w ++ [get_extensions_call (extension_point bd);
                  set_call a (trait_name bd)
                    (default [] (extensions r !! extension_point bd)) true])).
Proof.
  intros Hb Hr Ha Hh Hkw Hpriv. apply String.eqb_neq in Hkw.
  assert (Hlt : self < length (bindings w)) by (by eapply lookup_lt_Some).
  unfold on_extension_point_changed, _on_extension_point_changed, _set_trait.
  msimpl.
  rewrite (list_lookup_total_correct _ _ _ Hb). msimpl.
  rewrite list_lookup_total_insert_eq by done. msimpl.
  rewrite Hr. msimpl.
  rewrite Ha, Hh, Hkw. msimpl.
  rewrite obj_set_unfold. msimpl.
  rewrite Hh. msimpl.
  set (v := default [] (extensions r !! extension_point bd)).
  rewrite <- app_assoc. cbn [app].
  destruct (changed h (trait_name bd) (attrs h !! trait_name bd) v); cbn [andb].
  - rewrite for_each_noop.
    + msimpl. rewrite list_lookup_total_insert_eq by done. msimpl.
      by rewrite list_insert_insert_eq.
    + intros x Hx. apply Hpriv in Hx. subst x.
      unfold _on_trait_changed. msimpl.
      by rewrite list_lookup_total_insert_eq.
  - msimpl. rewrite list_lookup_total_insert_eq by done. msimpl.
    by rewrite list_insert_insert_eq.
Qed.

Lemma registry_writes_app t1 t2 :
  registry_writes (t1 ++ t2) = registry_writes t1 + registry_writes t2.
Proof. unfold registry_writes. by rewrite filter_app, length_app. Qed.

Lemma field_writes_app a name t1 t2 :
  field_writes a name (t1 ++ t2) = field_writes a name t1 + field_writes a name t2.
Proof. unfold field_writes. by rewrite filter_app, length_app. Qed.

(** ** The registry telling its listeners

    Every listener is a binding for [id] whose field is its own: each is
    told in turn, writes [v] into its field and writes nothing back. *)
Lemma listeners_told n id v added removed l :
  forall w r,
    extension_registry w = Some r ->
    extensions r !! id = Some v ->
    (forall b, b ∈ l -> wired w id b) ->
    exists w' t,
      for_each l
        (fun b => _on_extension_point_changed (obj_set (S n)) b id added removed) w
        = (Ok tt, w') /\
      frame w w' /\
      extension_registry w' = Some r /\
      trace w' = trace w ++ t /\
      registry_writes t = 0 /\
      (forall a name, field w' a name = field w a name \/ field w' a name = Some v) /\
      (forall b, b ∈ l ->
         exists bd a, bindings w' !! b = Some bd /\ obj bd = Some a /\
                      _event_handled bd = false /\
                      field w' a (trait_name bd) = Some v /\
                      set_call a (trait_name bd) v true ∈ t) /\
      (forall b, b ∉ l -> bindings w' !! b = bindings w !! b).
Proof.
  induction l as [|x l IH]; intros w r Hr Hv Hwired.
  { exists w, []. rewrite app_nil_r.
    split; [done|]. split; [apply frame_refl|]. do 3 (split; [done|]).
    split; [by left|]. split; [|done].
    intros b Hb. by apply not_elem_of_nil in Hb. }
  destruct (Hwired x) as (bd & a0 & h & Hb & Hid & Ha & Hh & Hkw & Hpriv); [by left|].
  pose proof (on_extension_point_changed_run n x w bd r a0 h id added removed
                Hb Hr Ha Hh Hkw Hpriv) as Hrun.
  unfold on_extension_point_changed in Hrun.
  rewrite Hid, Hv in Hrun. cbn [default from_option] in Hrun.
  unfold Datatypes.id in Hrun.
  pose proof (frame_on_extension_point_changed (obj_set (S n)) (frame_obj_set (S n))
                x id added removed w) as F1.
  rewrite Hrun in F1. cbn [snd] in F1.
  set (w1 := mkWorld (Some r) _ _ _) in *.
  assert (Hlt : x < length (bindings w)) by (by eapply lookup_lt_Some).
  destruct (field_assigned w w1 a0 (trait_name bd) v h (changed h) (trait_listeners h) Hh eq_refl)
    as [Hf1 Hf1'].
  destruct (IH w1 r eq_refl Hv) as (w' & t & Hloop & F2 & Hr' & Ht & Hq & Hfld & Hin & Hout).
  { intros b Hbl. apply (frame_wired w); [done|]. apply Hwired. by right. }
  exists w', ([get_extensions_call id; set_call a0 (trait_name bd) v true] ++ t).
  split; [by rewrite for_each_cons, Hrun|].
  split; [by eapply frame_trans|].
  split; [done|].
  split; [by rewrite Ht, app_assoc|].
  split; [by rewrite registry_writes_app, Hq|].
  assert (Hfld' : forall a name,
             field w' a name = field w a name \/ field w' a name = Some v).
  { intros a name. destruct (decide ((a, name) = (a0, trait_name bd))) as [E|E].
    - injection E as -> ->. right. destruct (Hfld a0 (trait_name bd)) as [->| ->]; done.
    - rewrite <- (Hf1' a name E). apply Hfld. }
  split; [done|]. split.
  - intros b Hbl. destruct (decide (b ∈ l)) as [Hl|Hl].
    { destruct (Hin b Hl) as (bd' & a' & ? & ? & ? & ? & Hev).
      exists bd', a'. do 4 (split; [done|]). apply elem_of_app. by right. }
    apply elem_of_cons in Hbl as [->|]; [|done].
    exists (mkBinding (Some a0) id (trait_name bd) false), a0.
    rewrite (Hout x Hl). subst w1. cbn [bindings].
    rewrite list_lookup_insert_eq by done.
    do 3 (split; [done|]). cbn [trait_name]. split.
    + destruct (Hfld a0 (trait_name bd)) as [->| ->]; done.
    + apply elem_of_app. left. apply elem_of_cons. right.
      by apply list_elem_of_singleton.
  - intros b Hbl. apply not_elem_of_cons in Hbl as [Hne Hl].
    rewrite (Hout b Hl). subst w1. cbn [bindings].
    by rewrite list_lookup_insert_ne.
Qed.

(** [registry.set_extensions(id, v)] called from outside, every listener
    of [id] being a binding for [id] whose field is its own. *)
Lemma registry_set_extensions_run n id v w r :
  extension_registry w = Some r ->
  (forall b, b ∈ hooked id (listeners r) -> wired w id b) ->
  exists w' t,
    registry_set_extensions (S (S n)) id v w = (Ok tt, w') /\
    frame w w' /\
    extension_registry w' = Some (mkRegistry (<[id := v]> (extensions r)) (listeners r)) /\
    trace w' = trace w ++ set_extensions_call id v :: t /\
    registry_writes t = 0 /\
    (forall a name, field w' a name = field w a name \/ field w' a name = Some v) /\
    (forall b, b ∈ hooked id (listeners r) ->
       exists bd a, bindings w' !! b = Some bd /\ obj bd = Some a /\
                    _event_handled bd = false /\
                    field w' a (trait_name bd) = Some v /\
                    set_call a (trait_name bd) v true ∈ t) /\
    (forall b, b ∉ hooked id (listeners r) -> bindings w' !! b = bindings w !! b).
Proof.
  intros Hr Hwired.
  rewrite registry_set_extensions_unfold. msimpl. rewrite Hr. msimpl.
  set (r' := mkRegistry (<[id := v]> (extensions r)) (listeners r)).
  set (w1 := mkWorld (Some r') (heap w) (bindings w) (trace w ++ [set_extensions_call id v])).
  assert (F1 : frame w w1) by (by apply frame_store_extensions).
  destruct (listeners_told n id v v (default [] (extensions r !! id))
              (hooked id (listeners r)) w1 r' eq_refl)
    as (w' & t & Hloop & F2 & Hr' & Ht & Hq & Hfld & Hin & Hout).
  { subst r'. cbn. apply lookup_insert_eq. }
  { intros b Hb. apply (frame_wired w); [done|]. by apply Hwired. }
  exists w', t. rewrite Hloop.
  split; [done|]. split; [by eapply frame_trans|]. split; [done|].
  split; [by rewrite Ht; subst w1; cbn [trace]; rewrite <- app_assoc|].
  done.
Qed.

(** [obj.set(name=v)] called from outside on the field of a binding whose
    flag is clear, the assignment being a change. *)
Lemma obj_set_run n w r self bd a h v :
  extension_registry w = Some r ->
  bindings w !! self = Some bd ->
  _event_handled bd = false ->
  obj bd = Some a ->
  heap w !! a = Some h ->
  hooked (trait_name bd) (trait_listeners h) = [self] ->
  changed h (trait_name bd) (attrs h !! trait_name bd) v = true ->
  (forall b, b ∈ hooked (extension_point bd) (listeners r) ->
             wired w (extension_point bd) b) ->
  exists w' t,
    obj_set (S (S (S n))) (Some a) (trait_name bd) v true w = (Ok tt, w') /\
    frame w w' /\
    trace w' = trace w ++ set_call a (trait_name bd) v true ::
                          set_extensions_call (extension_point bd) v :: t /\
    registry_writes t = 0 /\
    registered w' (extension_point bd) = Some v /\
    field w' a (trait_name bd) = Some v /\
    (forall b, b ∈ hooked (extension_point bd) (listeners r) ->
       exists bd' a', bindings w' !! b = Some bd' /\ obj bd' = Some a' /\
                      _event_handled bd' = false /\
                      field w' a' (trait_name bd') = Some v /\
                      set_call a' (trait_name bd') v true ∈ t) /\
    (forall b, b ∉ hooked (extension_point bd) (listeners r) ->
               bindings w' !! b = bindings w !! b).
Proof.
  intros Hr Hb Hflag Ha Hh Hhook Hch Hwired.
  rewrite obj_set_unfold. msimpl. rewrite Hh. msimpl.
  rewrite Hch, Hhook. cbn [andb]. rewrite for_each_cons.
  unfold _on_trait_changed. msimpl.
  rewrite (list_lookup_total_correct _ _ _ Hb), Hflag, Hr. msimpl.
  set (w1 := mkWorld (Some r) _ (bindings w) _).
  assert (F1 : frame w w1).
  { subst w1. rewrite <- Hr. by apply frame_store_attrs. }
  destruct (field_assigned w w1 a (trait_name bd) v h (changed h) (trait_listeners h) Hh eq_refl)
    as [Hf1 _].
  destruct (registry_set_extensions_run n (extension_point bd) v w1 r eq_refl)
    as (w' & t & Hrun & F2 & Hr' & Ht & Hq & Hfld & Hin & Hout).
  { intros b Hbl. apply (frame_wired w); [done|]. by apply Hwired. }
  exists w', t. rewrite Hrun. cbn.
  split; [done|]. split; [by eapply frame_trans|].
  split; [by rewrite Ht; subst w1; cbn [trace]; rewrite <- app_assoc|].
  split; [done|].
  split; [unfold registered; rewrite Hr'; cbn; apply lookup_insert_eq|].
  split; [destruct (Hfld a (trait_name bd)) as [->| ->]; done|].
  done.
Qed.

(** ** The constructor *)

Lemma lookup_total_new (l : list ExtensionPointBinding) b :
  (l ++ [b]) !!! length l = b.
Proof.
  apply list_lookup_total_correct.
  rewrite lookup_app_r by done. by rewrite Nat.sub_diag.
Qed.

Lemma new_run fuel a h r name id w :
  extension_registry w = Some r ->
  heap w !! a = Some h ->
  name <> trait_change_notify ->
  new fuel (Some a) name id w =
  (Ok (length (bindings w)),
   mkWorld
     (Some (mkRegistry (extensions r) (listeners r ++ [(length (bindings w), id)])))
     (<[a := mkHasTraits (<[name := default [] (extensions r !! id)]> (attrs h))
               (changed h)
               (trait_listeners h ++ [(length (bindings w), name)])]> (heap w))
     (bindings w ++ [mkBinding (Some a) id name false])
     (trace w ++ [get_extensions_call id;
                  set_call a name (default [] (extensions r !! id)) false;
                  on_trait_change_call a (length (bindings w)) name;
                  add_extension_listener_call (length (bindings w)) id])).
Proof.
  intros Hr Hh Hkw. apply String.eqb_neq in Hkw.
  unfold new, bind_extension_point, __init__, _set_trait, _initialize. msimpl.
  pose proof (lookup_total_new (bindings w) (mkBinding (Some a) id name false)) as HH.
  rewrite HH. msimpl. rewrite Hr. msimpl. rewrite Hh, Hkw. msimpl.
  rewrite obj_set_unfold. msimpl. rewrite Hh. msimpl.
  rewrite HH. msimpl.
  rewrite lookup_insert_eq. msimpl.
  rewrite insert_insert_eq. repeat rewrite <- app_assoc. done.
Qed.

Lemma new_without_registry fuel o name id w :
  extension_registry w = None ->
  new fuel o name id w =
  (Raise AttributeError,
   mkWorld None (heap w) (bindings w ++ [mkBinding o id name false]) (trace w)).
Proof.
  intros Hr.
  unfold new, bind_extension_point, __init__, _set_trait, _initialize. msimpl.
  rewrite (lookup_total_new (bindings w) (mkBinding o id name false)).
  msimpl. by rewrite Hr.
Qed.

Lemma new_without_object fuel o name id w r :
  extension_registry w = Some r ->
  (forall a, o = Some a -> heap w !! a = None) ->
  new fuel o name id w =
  (Raise AttributeError,
   mkWorld (Some r) (heap w) (bindings w ++ [mkBinding o id name false])
     (trace w ++ [get_extensions_call id])).
Proof.
  intros Hr Ho.
  unfold new, bind_extension_point, __init__, _set_trait, _initialize. msimpl.
  rewrite (lookup_total_new (bindings w) (mkBinding o id name false)).
  msimpl. rewrite Hr. msimpl.
  destruct o as [a|]; [|done]. by rewrite (Ho a eq_refl).
Qed.

Lemma new_keyword_twice fuel a h r id w :
  extension_registry w = Some r ->
  heap w !! a = Some h ->
  new fuel (Some a) trait_change_notify id w =
  (Raise TypeError,
   mkWorld (Some r) (heap w)
     (bindings w ++ [mkBinding (Some a) id trait_change_notify false])
     (trace w ++ [get_extensions_call id])).
Proof.
  intros Hr Hh.
  unfold new, bind_extension_point, __init__, _set_trait, _initialize. msimpl.
  rewrite (lookup_total_new (bindings w)
             (mkBinding (Some a) id trait_change_notify false)).
  msimpl. rewrite Hr. msimpl. by rewrite Hh.
Qed.

Lemma new_cases fuel o name id w :
  construction o name id w (new fuel o name id w).1 (new fuel o name id w).2.
Proof.
  destruct (extension_registry w) as [r|] eqn:Hr.
  - destruct o as [a|].
    + destruct (heap w !! a) as [h|] eqn:Hh.
      * destruct (decide (name = trait_change_notify)) as [->|Hkw].
        -- rewrite (new_keyword_twice fuel a h r) by done. by eapply keyword_twice.
        -- rewrite (new_run fuel a h r) by done. by eapply constructed.
      * rewrite (new_without_object fuel (Some a) name id w r); [|done|congruence].
        apply no_object; [done|congruence].
    + rewrite (new_without_object fuel None name id w r) by done.
      by apply no_object.
  - rewrite new_without_registry by done. by apply no_registry.
Qed.

(** ** Subscriptions under the frame, and the first call of a write *)

Lemma frame_hooked_on_trait w w' a b name :
  frame w w' -> hooked_on_trait w a b name -> hooked_on_trait w' a b name.
Proof.
  intros F (h & Hh & Hin).
  destruct (frame_object _ _ _ _ F Hh) as (h' & Hh' & HL & _).
  exists h'. by rewrite HL.
Qed.

Lemma frame_listening w w' b id :
  frame w w' -> listening w b id -> listening w' b id.
Proof.
  intros F (r & Hr & Hin).
  destruct (frame_registry _ _ _ F Hr) as (r' & Hr' & HL).
  exists r'. by rewrite HL.
Qed.

Lemma registry_set_extensions_first fuel id v w :
  is_Some (extension_registry w) ->
  exists t, trace (registry_set_extensions fuel id v w).2 =
            trace w ++ set_extensions_call id v :: t.
Proof.
  intros [r Hr].
  assert (Hloop : forall l (f : bref -> M unit) w1,
            (forall b w, frame w (f b w).2) ->
            exists t, trace (for_each l f w1).2 = trace w1 ++ t).
  { intros l f w1 Hf. apply (frame_trace w1). by apply frame_for_each. }
  rewrite registry_set_extensions_unfold. msimpl. rewrite Hr. msimpl.
  match goal with |- context [for_each ?l ?f ?w1] =>
    destruct (Hloop l f w1) as [t Ht] end.
  { intros b w2. destruct fuel; [apply frame_refl|].
    apply frame_on_extension_point_changed, frame_obj_set. }
  exists t. cbn [trace] in Ht. rewrite <- app_assoc in Ht. cbn [app] in Ht.
  match goal with |- context [for_each ?l ?f ?w1] =>
    destruct (for_each l f w1) as [[[]|e] w2] end; exact Ht.
Qed.

Lemma frame_invoke fuel self m w :
  m <> call_initialize -> frame w (invoke fuel self m w).2.
Proof.
  destruct m; intros Hm; [| |done|]; cbn [invoke].
  - apply frame_on_trait_changed, frame_registry_set_extensions.
  - apply frame_on_extension_point_changed, frame_obj_set.
  - apply frame_set_trait, frame_obj_set.
Qed.

Lemma initialize_keeps self w a b name id :
  (hooked_on_trait w a b name -> hooked_on_trait (_initialize self w).2 a b name) /\
  (listening w b id -> listening (_initialize self w).2 b id).
Proof.
  unfold _initialize. msimpl.
  set (bd := bindings w !!! self).
  destruct (obj bd) as [a0|]; [|done].
  destruct (heap w !! a0) as [h0|] eqn:Hh0; [|done]. msimpl.
  assert (Hhook : hooked_on_trait w a b name ->
            hooked_on_trait
              (mkWorld (extension_registry w)
                 (<[a0 := mkHasTraits (attrs h0) (changed h0)
                            (trait_listeners h0 ++ [(self, trait_name bd)])]> (heap w))
                 (bindings w) (trace w ++ [on_trait_change_call a0 self (trait_name bd)]))
              a b name).
  { intros (h & Hh & Hin). unfold hooked_on_trait. cbn [heap].
    destruct (decide (a0 = a)) as [->|Hne].
    - rewrite lookup_insert_eq. eexists. split; [done|]. cbn.
      apply elem_of_app. left. congruence.
    - rewrite lookup_insert_ne by done. by exists h. }
  destruct (extension_registry w) as [r|] eqn:Hr; msimpl.
  - split.
    + intros H. destruct (Hhook H) as (h & Hh & Hin). by exists h.
    + intros (r0 & Hr0 & Hin). eexists. split; [done|]. cbn.
      apply elem_of_app. left. congruence.
  - split; [|intros (r0 & Hr0 & _); congruence].
    intros H. destruct (Hhook H) as (h & Hh & Hin). exists h. cbn [heap] in *. done.
Qed.

Lemma invoke_keeps fuel self m w a b name id :
  (hooked_on_trait w a b name -> hooked_on_trait (invoke fuel self m w).2 a b name) /\
  (listening w b id -> listening (invoke fuel self m w).2 b id).
Proof.
  assert (Hm : m = call_initialize \/ m <> call_initialize)
    by (destruct m; (by left) || (by right)).
  destruct Hm as [->|Hm].
  - apply initialize_keeps.
  - pose proof (frame_invoke fuel self m w Hm) as F.
    split; [by apply frame_hooked_on_trait|by apply frame_listening].
Qed.

Lemma new_keeps fuel o name0 id0 w a b name id :
  (hooked_on_trait w a b name -> hooked_on_trait (new fuel o name0 id0 w).2 a b name) /\
  (listening w b id -> listening (new fuel o name0 id0 w).2 b id).
Proof.
  destruct (new_cases fuel o name0 id0 w)
    as [a0 h0 r0 -> Hh0 Hr0 Hkw|Hr0|r0 Hr0 Ho|a0 h0 r0 -> Hh0 Hr0 Hkw].
  - split.
    + intros (h & Hh & Hin). unfold hooked_on_trait. cbn [heap].
      destruct (decide (a0 = a)) as [->|Hne].
      * rewrite lookup_insert_eq. eexists. split; [done|]. cbn.
        apply elem_of_app. left. congruence.
      * rewrite lookup_insert_ne by done. by exists h.
    + intros (r & Hr & Hin). eexists. split; [done|]. cbn.
      apply elem_of_app. left. congruence.
  - split; [done|]. intros (r & Hr & _). congruence.
  - split; [done|]. intros (r & Hr & Hin). exists r. cbn. split; congruence.
  - split; [done|]. intros (r & Hr & Hin). exists r. cbn. split; congruence.
Qed.

(** ** Where the hypotheses of the claims hold *)

Lemma elem_of_hooked b name l : b ∈ hooked name l <-> (b, name) ∈ l.
Proof.
  unfold hooked. rewrite list_elem_of_fmap. split.
  - intros ([b' n] & -> & Hin). apply list_elem_of_filter in Hin as [Hn Hin].
    cbn in *. apply Is_true_true, String.eqb_eq in Hn. by subst.
  - intros Hin. exists (b, name). split; [done|].
    apply list_elem_of_filter. split; [|done]. cbn.
    by apply Is_true_true, String.eqb_eq.
Qed.

Lemma hooked_app name l1 l2 : hooked name (l1 ++ l2) = hooked name l1 ++ hooked name l2.
Proof. unfold hooked. by rewrite filter_app, map_app. Qed.

Lemma hooked_one name b n :
  hooked name [(b, n)] = if String.eqb n name then [b] else [].
Proof.
  unfold hooked. destruct (String.eqb n name) eqn:E.
  - rewrite filter_cons_True; [done|]. cbn. by rewrite E.
  - rewrite filter_cons_False; [done|]. cbn. rewrite E. tauto.
Qed.

(** In a tidy state every listener is a binding with its field to itself,
    which is what the claims on propagation ask of the listeners. *)
Lemma tidy_wired w r id b :
  tidy w -> extension_registry w = Some r -> b ∈ hooked id (listeners r) ->
  wired w id b.
Proof.
  intros Ht Hr Hb. apply elem_of_hooked in Hb.
  destruct (Ht r b id Hr Hb) as (bd & a & h & ? & ? & ? & ? & ? & Hone).
  exists bd, a, h. do 5 (split; [done|]).
  intros b'. rewrite Hone. by apply list_elem_of_singleton.
Qed.

(** Registry changes and assignments keep a state tidy. *)
Lemma tidy_frame w w' : tidy w -> frame w w' -> tidy w'.
Proof.
  intros Ht F r' b id Hr' Hin.
  pose proof (frame_listeners _ _ F) as HL. rewrite Hr' in HL. cbn in HL.
  destruct (extension_registry w) as [r|] eqn:Hr; [|done].
  cbn in HL. injection HL as HL. rewrite HL in Hin.
  destruct (Ht r b id Hr Hin) as (bd & a & h & Hb & Hid & Ha & Hh & Hkw & Hone).
  destruct (frame_binding _ _ _ _ F Hb) as (bd' & Hb' & HW).
  destruct (frame_object _ _ _ _ F Hh) as (h' & Hh' & HL' & _).
  unfold wiring in HW. injection HW as Ho He Hn.
  exists bd', a, h'. rewrite Ho, He, Hn, HL'. done.
Qed.

(** Binding a field nobody is hooked on keeps a state tidy. *)
Lemma tidy_new fuel a h r name id w :
  tidy w ->
  extension_registry w = Some r ->
  heap w !! a = Some h ->
  hooked name (trait_listeners h) = [] ->
  name <> trait_change_notify ->
  tidy (new fuel (Some a) name id w).2.
Proof.
  intros Ht Hr Hh Hfree Hkw. rewrite (new_run fuel a h r) by done. cbn [snd].
  intros r' b id' [= <-] Hin. cbn [listeners bindings heap] in *.
  apply elem_of_app in Hin as [Hin|Hin].
  - destruct (Ht r b id' Hr Hin) as (bd & ab & hb & Hb & Hid & Ha & Hhb & Hkwb & Hone).
    exists bd, ab.
    destruct (decide (a = ab)) as [<-|Hne].
    + eexists. rewrite lookup_insert_eq.
      split; [by apply lookup_app_l_Some|]. do 3 (split; [done|]). split; [done|].
      cbn [trait_listeners]. rewrite hooked_app, hooked_one.
      assert (hb = h) as -> by congruence.
      destruct (String.eqb name (trait_name bd)) eqn:E.
      * apply String.eqb_eq in E. rewrite <- E, Hfree in Hone. done.
      * by rewrite app_nil_r.
    + exists hb. rewrite lookup_insert_ne by done.
      split; [by apply lookup_app_l_Some|]. done.
  - apply list_elem_of_singleton in Hin. injection Hin as -> ->.
    eexists _, a, _. rewrite lookup_insert_eq.
    split; [by rewrite lookup_app_r, Nat.sub_diag|].
    do 3 (split; [done|]). split; [done|].
    cbn [trait_listeners trait_name]. rewrite hooked_app, hooked_one, Hfree.
    by rewrite String.eqb_refl.
Qed.

(** * The claims *)

Lemma field_writes_one a name v notify :
  field_writes a name [set_call a name v notify] = 1.
Proof.
  unfold field_writes. rewrite filter_cons_True; [done|].
  cbn. by rewrite Nat.eqb_refl, String.eqb_refl.
Qed.

(** C1 (as the code has it). An extension point change coming from
    outside reaches the bound field once and does not come back to the
    registry, when no other binding shares the field. Every listener of
    the extension point [id] is a binding for [id] on an observable object,
    with no handler of another binding hooked on its field. When the change
    is delivered to the listener of such a binding [b], the listener reads
    the registry once and assigns what it read to the bound field once,
    with notification on, and calls [set_extensions] not at all; the flag
    is clear again afterwards. For the whole of
    [registry.set_extensions(id, v)] called from outside, the registry is
    written exactly once (the outside call itself), and afterwards the
    registry and the bound field both hold [v]. *)
Theorem registry_change_reaches_field_once n w r id v b bd a :
  extension_registry w = Some r ->
  (forall b', b' ∈ hooked id (listeners r) -> wired w id b') ->
  b ∈ hooked id (listeners r) ->
  bindings w !! b = Some bd ->
  obj bd = Some a ->
  (forall added removed,
     exists w1 t,
       on_extension_point_changed (S n) b id added removed w = (Ok tt, w1) /\
       trace w1 = trace w ++ t /\
       t = [get_extensions_call id;
            set_call a (trait_name bd) (default [] (extensions r !! id)) true] /\
       registry_writes t = 0 /\
       field_writes a (trait_name bd) t = 1 /\
       field w1 a (trait_name bd) = Some (default [] (extensions r !! id)) /\
       handled w1 b = false) /\
  (exists w' t,
     registry_set_extensions (S (S n)) id v w = (Ok tt, w') /\
     trace w' = trace w ++ t /\
     registry_writes t = 1 /\
     registered w' id = Some v /\
     field w' a (trait_name bd) = Some v /\
     handled w' b = false).
Proof.
  intros Hr Hwired Hin Hb Ha.
  destruct (Hwired b Hin) as (bd0 & a0 & h & Hb0 & Hid & Ha0 & Hh & Hkw & Hpriv).
  assert (bd0 = bd) as -> by congruence.
  assert (a0 = a) as -> by congruence.
  assert (Hlt : b < length (bindings w)) by (by eapply lookup_lt_Some).
  split.
  - intros added removed.
    pose proof (on_extension_point_changed_run n b w bd r a h id added removed
                  Hb Hr Ha Hh Hkw Hpriv) as Hrun.
    rewrite Hid in Hrun.
    eexists _, _. split; [exact Hrun|]. cbn [trace].
    split; [done|]. split; [done|]. split; [done|].
    split.
    { etrans; [apply (field_writes_app a (trait_name bd) [get_extensions_call id] [_])|].
      by rewrite field_writes_one. }
    split.
    + eapply field_assigned; [exact Hh|done].
    + unfold handled. cbn [bindings].
      by rewrite list_lookup_total_insert_eq.
  - destruct (registry_set_extensions_run n id v w r Hr Hwired)
      as (w' & t & Hrun & F & Hr' & Ht & Hq & _ & Hmem & _).
    destruct (Hmem b Hin) as (bd' & a' & Hb' & Ha' & Hflag & Hfld & _).
    destruct (frame_binding _ _ _ _ F Hb) as (bd'' & Hb'' & HW).
    assert (bd'' = bd') as -> by congruence.
    unfold wiring in HW. injection HW as Ho He Hn.
    assert (a' = a) as -> by congruence.
    exists w', (set_extensions_call id v :: t).
    split; [done|]. split; [done|].
    split; [by etrans; [apply (registry_writes_app [set_extensions_call id v] t)|]; rewrite Hq|].
    split; [unfold registered; rewrite Hr'; cbn; apply lookup_insert_eq|].
    split; [by rewrite <- Hn|].
    unfold handled. by rewrite (list_lookup_total_correct _ _ _ Hb').
Qed.

(** C2 (as the code has it). A user write to the bound field reaches the
    registry once and comes back as the same value, when no other binding
    shares the field. The binding [self] has its flag clear and
    is the one handler hooked on its field, its listener is registered for
    its extension point, every listener of that point is a binding for it
    with its field to itself, and the assignment counts as a change. Then
    [obj.set(name=v)] returns, and in the calls it caused there is one
    [set_extensions] call, for the binding's extension point and with [v];
    the registry holds [v] for that point; the listener has written [v]
    back into the field, which holds [v]. *)
Theorem field_write_round_trip n w r self bd a h v :
  extension_registry w = Some r ->
  bindings w !! self = Some bd ->
  _event_handled bd = false ->
  obj bd = Some a ->
  heap w !! a = Some h ->
  hooked (trait_name bd) (trait_listeners h) = [self] ->
  changed h (trait_name bd) (attrs h !! trait_name bd) v = true ->
  self ∈ hooked (extension_point bd) (listeners r) ->
  (forall b, b ∈ hooked (extension_point bd) (listeners r) ->
             wired w (extension_point bd) b) ->
  exists w' t,
    obj_set (S (S (S n))) (Some a) (trait_name bd) v true w = (Ok tt, w') /\
    trace w' = trace w ++ set_call a (trait_name bd) v true ::
                          set_extensions_call (extension_point bd) v :: t /\
    registry_writes (set_call a (trait_name bd) v true ::
                     set_extensions_call (extension_point bd) v :: t) = 1 /\
    registered w' (extension_point bd) = Some v /\
    set_call a (trait_name bd) v true ∈ t /\
    field w' a (trait_name bd) = Some v /\
    handled w' self = false.
Proof.
  intros Hr Hb Hflag Ha Hh Hhook Hch Hin Hwired.
  destruct (obj_set_run n w r self bd a h v Hr Hb Hflag Ha Hh Hhook Hch Hwired)
    as (w' & t & Hrun & F & Ht & Hq & Hreg & Hfld & Hmem & _).
  destruct (Hmem self Hin) as (bd' & a' & Hb' & Ha' & Hflag' & _ & Hev).
  destruct (frame_binding _ _ _ _ F Hb) as (bd'' & Hb'' & HW).
  assert (bd'' = bd') as -> by congruence.
  unfold wiring in HW. injection HW as Ho He Hn.
  assert (a' = a) as -> by congruence.
  exists w', t. split; [done|]. split; [done|].
  split.
  { etrans; [apply (registry_writes_app [set_call a (trait_name bd) v true;
                                         set_extensions_call (extension_point bd) v] t)|].
    by rewrite Hq. }
  split; [done|]. split; [by rewrite <- Hn|]. split; [done|].
  unfold handled. by rewrite (list_lookup_total_correct _ _ _ Hb').
Qed.

(** A [_set_trait] that returns has read the registry and then written
    the field. *)
Lemma set_trait_steps fuel self notify w1 w2 bd1 :
  bindings w1 !! self = Some bd1 ->
  set_trait fuel self notify w1 = (Ok tt, w2) ->
  exists v w1',
    get_extensions (extension_point bd1) w1 = (Ok v, w1') /\
    bindings w1' = bindings w1 /\
    is_Some (extension_registry w1') /\
    obj_set fuel (obj bd1) (trait_name bd1) v notify w1' = (Ok tt, w2).
Proof.
  intros Hb H. unfold set_trait, _set_trait in H. msimpl in H. msimpl.
  rewrite (list_lookup_total_correct _ _ _ Hb) in H.
  destruct (extension_registry w1) as [r|] eqn:Hr; [|done]. msimpl in H.
  eexists _, _. split; [done|]. cbn [bindings extension_registry].
  split; [done|]. split; [by eexists|].
  destruct (obj bd1) as [a|]; [|done].
  destruct (heap w1 !! a); [|done].
  by destruct (String.eqb _ _).
Qed.

(** C4 (as the code has it). The flag of a binding is set when the
    listener is entered; the registry is read and then the field written
    once, both with the flag set; the flag is clear when the listener has
    returned normally. A field change notification delivered to the binding
    while the flag is set is ignored; one delivered after the listener has
    returned normally is passed on to the registry. *)
Theorem flag_covers_the_write fuel w self bd id added removed :
  bindings w !! self = Some bd ->
  (forall w',
     on_extension_point_changed fuel self id added removed w = (Ok tt, w') ->
     exists w1 v w1' w2,
       set_event_handled self true w = (Ok tt, w1) /\
       handled w1 self = true /\
       get_extensions (extension_point bd) w1 = (Ok v, w1') /\
       handled w1' self = true /\
       obj_set fuel (obj bd) (trait_name bd) v true w1' = (Ok tt, w2) /\
       set_event_handled self false w2 = (Ok tt, w') /\
       handled w' self = false /\
       forall fuel' o name old new,
         exists t,
           trace (on_trait_changed fuel' self o name old new w').2 =
           trace w' ++ set_extensions_call (extension_point bd) new :: t) /\
  (forall fuel' w1 o name old new,
     handled w1 self = true ->
     on_trait_changed fuel' self o name old new w1 = (Ok tt, w1)).
Proof.
  intros Hb.
  assert (Hlt : self < length (bindings w)) by (by eapply lookup_lt_Some).
  split.
  - intros w' Hrun.
    unfold on_extension_point_changed, _on_extension_point_changed in Hrun.
    unfold bind at 1 in Hrun.
    set (w1 := with_bindings
                 (<[self := mkBinding (obj bd) (extension_point bd) (trait_name bd) true]>
                    (bindings w)) w).
    assert (H1 : set_event_handled self true w = (Ok tt, w1)).
    { unfold set_event_handled. by rewrite (list_lookup_total_correct _ _ _ Hb). }
    rewrite H1 in Hrun. unfold bind at 1 in Hrun.
    destruct (_set_trait (obj_set fuel) self true w1) as [[[]|e] w2] eqn:H2; [|done].
    assert (Hb1 : bindings w1 !! self =
                  Some (mkBinding (obj bd) (extension_point bd) (trait_name bd) true)).
    { subst w1. cbn [bindings with_bindings]. by apply list_lookup_insert_eq. }
    destruct (set_trait_steps fuel self true w1 w2 _ Hb1 H2)
      as (v & w1' & Hget & Hsame & Hreg & Hset).
    cbn [obj extension_point trait_name] in Hget, Hset.
    pose proof (frame_obj_set fuel (obj bd) (trait_name bd) v true w1') as F2.
    rewrite Hset in F2. cbn [snd] in F2.
    assert (Hb1' : bindings w1' !! self =
                   Some (mkBinding (obj bd) (extension_point bd) (trait_name bd) true))
      by (by rewrite Hsame).
    destruct (frame_binding _ _ _ _ F2 Hb1') as (bd2 & Hb2 & HW).
    unfold wiring in HW. cbn in HW. injection HW as Ho He Hn.
    assert (Hlt2 : self < length (bindings w2)) by (by eapply lookup_lt_Some).
    destruct Hreg as [r1 Hr1].
    destruct (frame_registry _ _ _ F2 Hr1) as (r2 & Hr2 & _).
    exists w1, v, w1', w2.
    split; [done|].
    split; [unfold handled; by rewrite (list_lookup_total_correct _ _ _ Hb1)|].
    split; [done|].
    split; [unfold handled; by rewrite (list_lookup_total_correct _ _ _ Hb1')|].
    split; [done|]. split; [done|].
    injection Hrun as <-.
    split.
    { unfold handled. cbn [bindings with_bindings].
      by rewrite list_lookup_total_insert_eq. }
    intros fuel' o name old new.
    unfold on_trait_changed, _on_trait_changed. msimpl.
    rewrite list_lookup_total_insert_eq by done. msimpl.
    rewrite Hr2. msimpl.
    rewrite (list_lookup_total_correct _ _ _ Hb2), He.
    match goal with |- context [registry_set_extensions ?f ?i ?x ?W] =>
      destruct (registry_set_extensions_first f i x W) as [t Ht] end.
    { cbn. by eexists. }
    exists t. exact Ht.
  - intros fuel' w1 o name old new Hflag.
    unfold on_trait_changed, _on_trait_changed. msimpl.
    unfold handled in Hflag. by rewrite Hflag.
Qed.

(** C5. Constructing a binding, through the factory or the constructor,
    on an observable object with a registry installed (the field not being
    named like the keyword of [set]): the calls made on the collaborators
    are, in this order, the read of the extension point, the assignment of
    what was read to the named field with notification off, the hooking of
    the field handler on the object, and the registration of the listener
    with the registry. No handler hooked on the field before is called by
    the assignment, and nothing else is called. Afterwards the field holds
    the registry's value, both subscriptions are in place and the flag is
    clear. *)
Theorem construction_pulls_then_subscribes fuel a h r name id w :
  extension_registry w = Some r ->
  heap w !! a = Some h ->
  name <> trait_change_notify ->
  exists self w',
    bind_extension_point (obj_set fuel) (Some a) name id w = (Ok self, w') /\
    __init__ (obj_set fuel) (Some a) name id w = (Ok self, w') /\
    self = length (bindings w) /\
    trace w' = trace w ++
      [get_extensions_call id;
       set_call a name (default [] (extensions r !! id)) false;
       on_trait_change_call a self name;
       add_extension_listener_call self id] /\
    field w' a name = Some (default [] (extensions r !! id)) /\
    hooked_on_trait w' a self name /\
    listening w' self id /\
    bindings w' !! self = Some (mkBinding (Some a) id name false) /\
    registered w' id = registered w id.
Proof.
  intros Hr Hh Hkw. eexists _, _.
  split; [by apply new_run|]. split; [by apply new_run|].
  split; [done|]. split; [done|].
  split; [unfold field; cbn; rewrite lookup_insert_eq; cbn; apply lookup_insert_eq|].
  split.
  { eexists. cbn. split; [apply lookup_insert_eq|]. cbn.
    apply elem_of_app. right. by apply list_elem_of_singleton. }
  split.
  { eexists. cbn. split; [done|]. cbn.
    apply elem_of_app. right. by apply list_elem_of_singleton. }
  split.
  { cbn. rewrite lookup_app_r by done. by rewrite Nat.sub_diag. }
  unfold registered. cbn. by rewrite Hr.
Qed.

(** C6 (as the code has it). The class has no dispose operation and none
    of its operations unsubscribes: after the constructor, [_initialize],
    [_set_trait] or either of the two handlers, run on any binding with any
    arguments, every handler that was hooked on an object is still hooked
    and every listener that was registered is still registered. *)
Theorem subscriptions_are_never_removed fuel w a b name id :
  (forall self m,
     (hooked_on_trait w a b name -> hooked_on_trait (invoke fuel self m w).2 a b name) /\
     (listening w b id -> listening (invoke fuel self m w).2 b id)) /\
  (forall o name0 id0,
     (hooked_on_trait w a b name -> hooked_on_trait (new fuel o name0 id0 w).2 a b name) /\
     (listening w b id -> listening (new fuel o name0 id0 w).2 b id)).
Proof.
  split.
  - intros self m. apply invoke_keeps.
  - intros o name0 id0. apply new_keeps.
Qed.

(** C7 (as the code has it). Creating a binding checks neither the field
    name nor the fields of the object, and nothing in it raises an error of
    its own. With a registry installed and an observable object, a binding
    for the empty field name, or for a name the object has no attribute for
    (the name being other than the keyword [trait_change_notify] of [set]),
    is created as for any other name: the constructor returns the binding,
    the attribute of that name has been written with the extensions of the
    extension point, and both the handler and the listener are
    subscribed. *)
Theorem construction_checks_no_field_name fuel a h r name id w :
  extension_registry w = Some r ->
  heap w !! a = Some h ->
  name <> trait_change_notify ->
  name = "" \/ attrs h !! name = None ->
  exists self w',
    new fuel (Some a) name id w = (Ok self, w') /\
    field w' a name = Some (default [] (extensions r !! id)) /\
    set_call a name (default [] (extensions r !! id)) false ∈ trace w' /\
    hooked_on_trait w' a self name /\
    listening w' self id.
Proof.
  intros Hr Hh Hkw _.
  eexists _, _. split; [by apply (new_run fuel a h r)|].
  cbn [trace]. split; [|split; [|split]].
  - eapply field_assigned; [exact Hh|done].
  - apply elem_of_app. right. apply list_elem_of_further, list_elem_of_here.
  - eexists. cbn [heap]. rewrite lookup_insert_eq. split; [done|].
    cbn [trait_listeners]. apply elem_of_app. right. by apply list_elem_of_singleton.
  - eexists. split; [done|]. cbn [listeners].
    apply elem_of_app. right. by apply list_elem_of_singleton.
Qed.

(** C9. The registry is the one class attribute every instance reads: with
    it at [None], constructing a binding raises during the initial pull,
    before anything was called on the object, so that no handler is hooked
    and no listener registered; and every instance's [_set_trait] raises
    in the same way. *)
Theorem construction_without_registry fuel o name id w :
  extension_registry w = None ->
  exists w',
    new fuel o name id w = (Raise AttributeError, w') /\
    heap w' = heap w /\
    extension_registry w' = None /\
    trace w' = trace w /\
    (forall a b n, hooked_on_trait w' a b n <-> hooked_on_trait w a b n) /\
    (forall b i, ~ listening w' b i) /\
    (forall self notify, set_trait fuel self notify w = (Raise AttributeError, w)).
Proof.
  intros Hr. eexists. split; [by apply new_without_registry|].
  do 3 (split; [done|]). split; [done|]. split.
  - intros b i (r & Hr' & _). done.
  - intros self notify. unfold set_trait, _set_trait. msimpl. by rewrite Hr.
Qed.

(** C10. Constructing a binding never writes to the registry: whatever the
    arguments and the state, the extensions the registry holds are the same
    after the constructor as before, no call it made is a [set_extensions]
    call, and with a registry installed it did call [get_extensions]. *)
Theorem construction_leaves_registry_alone fuel o name id w :
  extensions <$> extension_registry (new fuel o name id w).2 =
    extensions <$> extension_registry w /\
  exists t,
    trace (new fuel o name id w).2 = trace w ++ t /\
    registry_writes t = 0 /\
    (is_Some (extension_registry w) -> get_extensions_call id ∈ t).
Proof.
  destruct (new_cases fuel o name id w)
    as [a h r -> Hh Hr Hkw|Hr|r Hr Ho|a h r -> Hh Hr Hkw]; rewrite Hr.
  - split; [done|]. eexists. split; [done|]. split; [done|].
    intros _. by left.
  - split; [done|]. exists []. cbn. rewrite app_nil_r. split; [done|]. split; [done|].
    by intros [? ?].
  - split; [done|]. eexists. split; [done|]. split; [done|].
    intros _. by left.
  - split; [done|]. eexists. split; [done|]. split; [done|].
    intros _. by left.
Qed.

(** ** The plugin manager *)

Lemma filter_twice {A} (f g : A -> bool) (l : list A) :
  List.filter g (List.filter f l) = List.filter (fun x => f x && g x) l.
Proof.
  induction l as [|x l IH]; [done|]. cbn.
  destruct (f x); cbn; [|done]. destruct (g x); by rewrite IH.
Qed.

Lemma matches_some_spec pats name :
  Manager.matches_some pats name = true <->
  exists pat, pat ∈ pats /\ Manager.fnmatch name pat = true.
Proof.
  unfold Manager.matches_some. rewrite existsb_exists. split.
  - intros (pat & Hin & Hm). exists pat. by rewrite list_elem_of_In.
  - intros (pat & Hin & Hm). exists pat. by rewrite <- list_elem_of_In.
Qed.

Lemma included_spec inc name :
  Manager.included inc name = true <->
  default [] inc = [] \/ exists pat, pat ∈ default [] inc /\ Manager.fnmatch name pat = true.
Proof.
  unfold Manager.included. destruct (default [] inc) as [|p pats] eqn:E.
  - split; [by left|done].
  - rewrite matches_some_spec. split; [by right|]. by intros [|].
Qed.

Lemma not_excluded_spec exc name :
  Manager.not_excluded exc name = true <->
  default [] exc = [] \/ forall pat, pat ∈ default [] exc -> Manager.fnmatch name pat = false.
Proof.
  unfold Manager.not_excluded. destruct (default [] exc) as [|p pats] eqn:E.
  - split; [by left|done].
  - rewrite negb_true_iff. split.
    + intros Hno. right. intros pat Hin.
      destruct (Manager.fnmatch name pat) eqn:Hm; [|done].
      assert (Manager.matches_some (p :: pats) name = true) as Hyes
        by (apply matches_some_spec; by exists pat).
      congruence.
    + intros [|Hall]; [done|].
      destruct (Manager.matches_some (p :: pats) name) eqn:Hm; [|done].
      apply matches_some_spec in Hm as (pat & Hin & Hm).
      rewrite (Hall pat Hin) in Hm. done.
Qed.

(** *** The matcher against shell matching as a relation *)

Lemma starts_range_dec body :
  {lo & {hi & {rest | body = lo :: "-"%char :: hi :: rest}}} + {~ Shell.starts_range body}.
Proof.
  destruct body as [|lo [|d [|hi rest]]];
    try (right; intros (? & ? & ? & [=]); fail).
  destruct (Ascii.eqb_spec d "-") as [->|Hd].
  - left. by exists lo, hi, rest.
  - right. intros (? & ? & ? & [= -> -> -> ->]). done.
Qed.

Lemma class_items_range lo hi rest :
  Manager.class_items (lo :: "-"%char :: hi :: rest) =
  Manager.Range lo hi :: Manager.class_items rest.
Proof. done. Qed.

Lemma class_items_one c rest :
  ~ Shell.starts_range (c :: rest) ->
  Manager.class_items (c :: rest) = Manager.One c :: Manager.class_items rest.
Proof.
  intros Hno. destruct rest as [|d [|hi rest]]; try done.
  cbn [Manager.class_items].
  destruct (Ascii.eqb_spec d "-") as [->|Hd]; [|done].
  destruct Hno. by exists c, hi, rest.
Qed.

Lemma member_spec c body :
  existsb (Manager.in_item c) (Manager.class_items body) = true <-> Shell.member c body.
Proof.
  remember (length body) as n eqn:Hn. revert body Hn.
  induction n as [n IH] using lt_wf_ind. intros body ->.
  destruct body as [|c0 rest0].
  { cbn. split; [done|]. inversion 1. }
  destruct (starts_range_dec (c0 :: rest0)) as [(lo & hi & rest & E)|Hno].
  - rewrite E, class_items_range. cbn [existsb Manager.in_item].
    rewrite orb_true_iff, andb_true_iff, !Nat.leb_le.
    rewrite (IH (length rest)); [|rewrite E; cbn; lia|done].
    split.
    + intros [[? ?]|?]; [by apply Shell.in_range|by apply Shell.past_range].
    + inversion 1 as [lo' hi' rest' H1 H2|lo' hi' rest' H1|rest' Hn|c' rest' Hn H1]; subst.
      * by left.
      * by right.
      * destruct Hn. by exists lo, hi, rest.
      * destruct Hn. by exists lo, hi, rest.
  - rewrite class_items_one by done. cbn [existsb Manager.in_item].
    rewrite orb_true_iff, Ascii.eqb_eq.
    rewrite (IH (length rest0)); [|cbn; lia|done].
    split.
    + intros [->|?]; [by apply Shell.itself|by apply Shell.past_one].
    + inversion 1 as [lo' hi' rest' H1 H2|lo' hi' rest' H1|rest' Hn|c' rest' Hn H1]; subst.
      * destruct Hno. by eexists _, _, _.
      * destruct Hno. by eexists _, _, _.
      * by left.
      * by right.
Qed.

Lemma until_close_Some s body rest :
  Manager.until_close s = Some (body, rest) <->
  s = body ++ "]"%char :: rest /\ "]"%char ∉ body.
Proof.
  revert body rest. induction s as [|c s IH]; intros body rest.
  { cbn. split; [done|]. intros [E _]. by destruct body. }
  cbn [Manager.until_close]. destruct (Ascii.eqb_spec c "]") as [->|Hc].
  - split.
    + intros [= <- <-]. split; [done|]. apply not_elem_of_nil.
    + intros [E Hno]. destruct body as [|c' body]; [by injection E as <-|].
      injection E as <- _. destruct Hno. by left.
  - split.
    + pose proof (fun b r => proj1 (IH b r)) as IH1.
      destruct (Manager.until_close s) as [[b r]|]; [|done].
      intros [= <- <-]. destruct (IH1 b r eq_refl) as [-> Hb].
      split; [done|]. by apply not_elem_of_cons.
    + intros [E Hno]. destruct body as [|c' body]; [by injection E as ->|].
      injection E as <- E. apply not_elem_of_cons in Hno as [_ Hno].
      by rewrite (proj2 (IH body rest)).
Qed.

Lemma class_body_complete negated body rest :
  Shell.class_shape negated body ->
  Manager.class_body (Shell.bang negated ++ body ++ "]"%char :: rest) =
  Some (negated, body, length (Shell.bang negated ++ body) + 1).
Proof.
  destruct body as [|c more]; [done|]. intros [Hmore Hbang].
  unfold Manager.class_body.
  assert (Hcore :
    (let '(first, s2) :=
       if Ascii.eqb c "]" then ([c], more ++ "]"%char :: rest)
       else ([], c :: more ++ "]"%char :: rest) in
     match Manager.until_close s2 with
     | Some (b, _) =>
         Some (negated, first ++ b,
               (if negated then 1 else 0) + length (first ++ b) + 1)
     | None => None
     end) = Some (negated, c :: more, length (Shell.bang negated ++ c :: more) + 1)).
  { destruct (Ascii.eqb_spec c "]") as [->|Hc].
    - rewrite (proj2 (until_close_Some (more ++ "]"%char :: rest) more rest)) by done.
      cbn [app]. do 2 f_equal. destruct negated; cbn; lia.
    - rewrite (proj2 (until_close_Some (c :: more ++ "]"%char :: rest) (c :: more) rest)).
      + cbn [app]. do 2 f_equal. destruct negated; cbn; lia.
      + split; [done|]. by apply not_elem_of_cons.
  }
  destruct negated; cbn [Shell.bang app].
  - change (Ascii.eqb "!" "!") with true. cbn iota. exact Hcore.
  - destruct (Ascii.eqb_spec c "!") as [->|Hc]; [by destruct Hbang|]. exact Hcore.
Qed.

Lemma class_body_sound s negated body read :
  Manager.class_body s = Some (negated, body, read) ->
  Shell.class_shape negated body /\
  exists rest, s = Shell.bang negated ++ body ++ "]"%char :: rest /\
               read = length (Shell.bang negated ++ body) + 1.
Proof.
  unfold Manager.class_body.
  set (p1 := match s with
             | c :: s' => if Ascii.eqb c "!" then (true, s') else (false, s)
             | [] => (false, s)
             end).
  assert (Hp1 : s = Shell.bang p1.1 ++ p1.2 /\
                (p1.1 = false -> forall c more, p1.2 = c :: more -> c <> "!"%char)).
  { subst p1. destruct s as [|c s']; [done|].
    destruct (Ascii.eqb_spec c "!") as [->|Hc]; cbn; [done|].
    split; [done|]. by intros _ c0 more [= <- _]. }
  destruct p1 as [neg s1]. cbn [fst snd] in Hp1. destruct Hp1 as [-> Hbang].
  set (p2 := match s1 with
             | c :: s' => if Ascii.eqb c "]" then ([c], s') else ([], s1)
             | [] => ([], s1)
             end).
  assert (Hp2 : s1 = p2.1 ++ p2.2 /\
                (p2.1 = ["]"%char] \/
                 p2.1 = [] /\ forall c more, p2.2 = c :: more -> c <> "]"%char)).
  { subst p2. destruct s1 as [|c s']; [split; [done|]; by right|].
    destruct (Ascii.eqb_spec c "]") as [->|Hc]; cbn.
    - split; [done|]. by left.
    - split; [done|]. right. split; [done|]. by intros c0 more [= <- _]. }
  destruct p2 as [first s2]. cbn [fst snd] in Hp2. destruct Hp2 as [-> Hfirst].
  destruct (Manager.until_close s2) as [[b rest]|] eqn:E; [|done].
  apply until_close_Some in E as [-> Hb].
  intros [= <- <- <-].
  assert (Hlen : (if neg then 1 else 0) + length (first ++ b) + 1 =
                 length (Shell.bang neg ++ first ++ b) + 1)
    by (destruct neg; cbn; lia).
  split.
  - destruct Hfirst as [->|[-> Hhead]]; cbn [app Shell.class_shape].
    + split; [done|]. intros Hn. by apply (Hbang Hn "]"%char (b ++ "]"%char :: rest)).
    + destruct b as [|c more].
      * by destruct (Hhead "]"%char rest).
      * cbn [Shell.class_shape]. apply not_elem_of_cons in Hb as [_ Hb]. split; [done|].
        intros Hn. by apply (Hbang Hn c (more ++ "]"%char :: rest)).
  - exists rest. split; [by rewrite <- !app_assoc|done].
Qed.

Lemma class_body_None s :
  Manager.class_body s = None <-> Shell.unclosed s.
Proof.
  split.
  - intros Hnone negated body rest Hshape ->.
    by rewrite class_body_complete in Hnone.
  - intros Hun. destruct (Manager.class_body s) as [[[negated body] read]|] eqn:E; [|done].
    apply class_body_sound in E as [Hshape (rest & -> & _)].
    by destruct (Hun negated body rest).
Qed.

Lemma translate_from_skip l pat :
  Manager.translate_from (length l) (l ++ pat) = Manager.translate_from 0 pat.
Proof. induction l as [|c l IH]; [done|]. exact IH. Qed.

Lemma glob_match_star_spec g name :
  Manager.glob_match (Manager.Star :: g) name = true <->
  exists run rest, name = run ++ rest /\ Manager.glob_match g rest = true.
Proof.
  cbn [Manager.glob_match]. induction name as [|c name IH].
  - rewrite orb_false_r. split.
    + intros H. by exists [], [].
    + intros (run & rest & E & H). symmetry in E.
      apply app_eq_nil in E as [-> ->]. done.
  - rewrite orb_true_iff, IH. split.
    + intros [H|(run & rest & -> & H)].
      * by exists [], (c :: name).
      * by exists (c :: run), rest.
    + intros (run & rest & E & H). destruct run as [|c' run].
      * left. cbn in E. by subst.
      * right. injection E as <- ->. by exists run, rest.
Qed.

Lemma translate_from_cons c pat :
  Manager.translate_from 0 (c :: pat) =
  if Ascii.eqb c "*" then Manager.Star :: Manager.translate_from 0 pat
  else if Ascii.eqb c "?" then Manager.Question :: Manager.translate_from 0 pat
  else if Ascii.eqb c "[" then
    match Manager.class_body pat with
    | Some (neg, body, read) =>
        Manager.Class neg (Manager.class_items body) :: Manager.translate_from read pat
    | None => Manager.Literal c :: Manager.translate_from 0 pat
    end
  else Manager.Literal c :: Manager.translate_from 0 pat.
Proof. done. Qed.

Lemma matches_cons_inv c pat name :
  Shell.matches (c :: pat) name ->
  (c = "*"%char /\ exists run rest, name = run ++ rest /\ Shell.matches pat rest) \/
  (c = "?"%char /\ exists c' rest, name = c' :: rest /\ Shell.matches pat rest) \/
  (c = "["%char /\ exists negated body pat' c' rest,
     pat = Shell.bang negated ++ body ++ "]"%char :: pat' /\ name = c' :: rest /\
     Shell.class_shape negated body /\ (Shell.member c' body <-> negated = false) /\
     Shell.matches pat' rest) \/
  (c = "["%char /\ exists rest, name = c :: rest /\ Shell.unclosed pat /\
     Shell.matches pat rest) \/
  (Shell.ordinary c /\ exists rest, name = c :: rest /\ Shell.matches pat rest).
Proof.
  inversion 1 as [|pat0 run rest H0|pat0 c0 rest H0|negated body pat0 c0 rest Hs Hm H0
                 |pat0 rest Hu H0|c0 pat0 rest Ho H0]; subst.
  - left. split; [done|]. by exists run, rest.
  - right. left. split; [done|]. by exists c0, rest.
  - right. right. left. split; [done|]. by exists negated, body, pat0, c0, rest.
  - right. right. right. left. split; [done|]. by exists rest.
  - right. right. right. right. split; [done|]. by exists rest.
Qed.

Lemma glob_match_matches pat :
  forall name,
    Manager.glob_match (Manager.translate_from 0 pat) name = true <->
    Shell.matches pat name.
Proof.
  remember (length pat) as n eqn:Hn. revert pat Hn.
  induction n as [n IH] using lt_wf_ind. intros pat -> name.
  destruct pat as [|c pat].
  { cbn. destruct name; split; try done; [constructor|inversion 1]. }
  assert (IHpat : forall name', Manager.glob_match (Manager.translate_from 0 pat) name' = true
                               <-> Shell.matches pat name').
  { intros name'. apply (IH (length pat)); [cbn; lia|done]. }
  rewrite translate_from_cons.
  destruct (Ascii.eqb_spec c "*") as [->|Hstar].
  { rewrite glob_match_star_spec. split.
    - intros (run & rest & -> & H). apply Shell.matches_star. by apply IHpat.
    - intros H. apply matches_cons_inv in H as [[E H]|[[E H]|[[E H]|[[E H]|[Ho H]]]]];
        try discriminate E.
      + destruct H as (run & rest & -> & H). exists run, rest. split; [done|]. by apply IHpat.
      + by destruct Ho. }
  destruct (Ascii.eqb_spec c "?") as [->|Hquestion].
  { cbn [Manager.glob_match]. split.
    - destruct name as [|c' rest]; [done|]. intros H.
      apply Shell.matches_question. by apply IHpat.
    - intros H. apply matches_cons_inv in H as [[E H]|[[E H]|[[E H]|[[E H]|[Ho H]]]]];
        try discriminate E.
      + destruct H as (c' & rest & -> & H). by apply IHpat.
      + by destruct Ho as (_ & ? & _). }
  destruct (Ascii.eqb_spec c "[") as [->|Hbracket].
  { destruct (Manager.class_body pat) as [[[negated body] read]|] eqn:Hcb.
    - destruct (class_body_sound _ _ _ _ Hcb) as [Hshape (pat' & Hpat & ->)].
      assert (Hskip : Manager.translate_from (length (Shell.bang negated ++ body) + 1) pat
                      = Manager.translate_from 0 pat').
      { rewrite Hpat.
        replace (Shell.bang negated ++ body ++ "]"%char :: pat')
          with ((Shell.bang negated ++ body ++ ["]"%char]) ++ pat')
          by (by rewrite <- !app_assoc).
        replace (length (Shell.bang negated ++ body) + 1)
          with (length (Shell.bang negated ++ body ++ ["]"%char]))
          by (rewrite !length_app; cbn; lia).
        apply translate_from_skip. }
      rewrite Hskip.
      assert (IHpat' : forall name',
                 Manager.glob_match (Manager.translate_from 0 pat') name' = true
                 <-> Shell.matches pat' name').
      { intros name'. apply (IH (length pat')); [|done].
        rewrite Hpat. cbn [length]. rewrite !length_app. cbn. lia. }
      cbn [Manager.glob_match]. split.
      + destruct name as [|c' rest]; [done|].
        rewrite andb_true_iff. intros [Hx H].
        rewrite Hpat. apply Shell.matches_class; [done| |by apply IHpat'].
        rewrite <- member_spec.
        destruct negated, (existsb _ _); cbn in Hx; done.
      + intros H. apply matches_cons_inv in H as [[E H]|[[E H]|[[E H]|[[E H]|[Ho H]]]]];
          try discriminate E.
        * destruct H as (negated' & body' & pat'' & c' & rest & Hpat'' & -> & Hshape' & Hm & H).
          pose proof (class_body_complete negated' body' pat'' Hshape') as Hcb'.
          rewrite <- Hpat'', Hcb in Hcb'. injection Hcb' as <- <- _.
          assert (pat'' = pat') as ->.
          { rewrite Hpat in Hpat''. rewrite !app_assoc in Hpat''.
            apply app_inv_head in Hpat''. by injection Hpat''. }
          rewrite andb_true_iff. split; [|by apply IHpat'].
          rewrite <- member_spec in Hm.
          destruct negated, (existsb _ _); cbn; try done.
          -- destruct Hm as [Hm _]. by specialize (Hm eq_refl).
          -- destruct Hm as [_ Hm]. by specialize (Hm eq_refl).
        * destruct H as (rest & -> & Hun & _). apply class_body_None in Hun. congruence.
        * by destruct Ho as (_ & _ & ?).
    - cbn [Manager.glob_match]. split.
      + destruct name as [|c' rest]; [done|]. rewrite andb_true_iff, Ascii.eqb_eq.
        intros [<- H]. apply Shell.matches_bracket; [by apply class_body_None|by apply IHpat].
      + intros H. apply matches_cons_inv in H as [[E H]|[[E H]|[[E H]|[[E H]|[Ho H]]]]];
          try discriminate E.
        * destruct H as (negated' & body' & pat'' & c' & rest & Hpat'' & -> & Hshape' & Hm & H).
          pose proof (class_body_complete negated' body' pat'' Hshape') as Hcb'.
          rewrite <- Hpat'', Hcb in Hcb'. done.
        * destruct H as (rest & -> & Hun & H).
          rewrite andb_true_iff, Ascii.eqb_eq. split; [done|by apply IHpat].
        * by destruct Ho as (_ & _ & ?). }
  cbn [Manager.glob_match]. split.
  - destruct name as [|c' rest]; [done|]. rewrite andb_true_iff, Ascii.eqb_eq.
    intros [<- H]. apply Shell.matches_itself; [done|by apply IHpat].
  - intros H. apply matches_cons_inv in H as [[E H]|[[E H]|[[E H]|[[E H]|[Ho H]]]]];
      try done.
    destruct H as (rest & -> & H).
    rewrite andb_true_iff, Ascii.eqb_eq. split; [done|by apply IHpat].
Qed.

Lemma fnmatch_glob name pat :
  Manager.fnmatch name pat = true <-> Shell.glob pat name.
Proof. apply glob_match_matches. Qed.

Lemma fnmatch_not_glob name pat :
  Manager.fnmatch name pat = false <-> ~ Shell.glob pat name.
Proof.
  rewrite <- fnmatch_glob. by destruct (Manager.fnmatch name pat).
Qed.

(** C3. The plugins of a manager are exactly the candidates (those given,
    then those found on the path, in that order and as often as they occur)
    whose id matches some include pattern, or there is none, and matches no
    exclude pattern, or there is none; an id matched by a pattern of each
    list is left out. Matching is shell matching of the whole id, said as
    the relation [Shell.glob]: [*] any run of characters, [?] any one
    character, a class one of its members or, negated, none of them, every
    other character itself and nothing else, upper and lower case apart;
    the manager's matcher decides exactly that relation. The four
    constructions of the test case give the lists of ids the test case
    expects. *)
Theorem plugins_are_the_filtered_candidates s resolve explicit path inc exc :
  (exists keep,
     Manager.plugins (Manager.create s resolve explicit path inc exc) =
       List.filter keep (explicit ++ concat (map resolve path)) /\
     forall r,
       keep r = true <->
       exists name,
         Manager.id_at s r = Some name /\
         (default [] inc = [] \/
          exists pat, pat ∈ default [] inc /\ Shell.glob pat name) /\
         (default [] exc = [] \/
          forall pat, pat ∈ default [] exc -> ~ Shell.glob pat name)) /\
  (forall r name pi pe,
     Manager.id_at s r = Some name ->
     pi ∈ default [] inc -> Shell.glob pi name ->
     pe ∈ default [] exc -> Shell.glob pe name ->
     r ∉ Manager.plugins (Manager.create s resolve explicit path inc exc)) /\
  (forall name pat, Manager.fnmatch name pat = true <-> Shell.glob pat name) /\
  (Shell.glob "acme.f*" "acme.foo" /\
   ~ Shell.glob "ACME.f*" "acme.foo" /\
   Shell.glob "acme?fo[a-o]" "acme.foo" /\
   ~ Shell.glob "acme.fo[!a-o]" "acme.foo" /\
   ~ Shell.glob "acme.foo" "acmexfoo") /\
  (Manager.ids (Manager.canopy (Some ["acme.foo"; "acme.bar"]) None) Manager.eggs
     = ["acme.foo"; "acme.bar"] /\
   Manager.ids (Manager.canopy (Some ["acme.b*"]) None) Manager.eggs
     = ["acme.bar"; "acme.baz"] /\
   Manager.ids (Manager.canopy None (Some ["acme.foo"; "acme.baz"])) Manager.eggs
     = ["acme.bar"] /\
   Manager.ids (Manager.canopy None (Some ["acme.b*"])) Manager.eggs
     = ["acme.foo"]).
Proof.
  set (keep := fun r => Manager.passes s (Manager.included inc) r &&
                        Manager.passes s (Manager.not_excluded exc) r).
  assert (Hkeep : forall r,
     keep r = true <->
     exists name,
       Manager.id_at s r = Some name /\
       (default [] inc = [] \/
        exists pat, pat ∈ default [] inc /\ Shell.glob pat name) /\
       (default [] exc = [] \/
        forall pat, pat ∈ default [] exc -> ~ Shell.glob pat name)).
  { intros r. subst keep. cbn beta. rewrite andb_true_iff. unfold Manager.passes.
    destruct (Manager.id_at s r) as [name|]; [|split; [by intros [? _]|by intros (? & ? & _)]].
    rewrite included_spec, not_excluded_spec. split.
    - intros [Hi He]. exists name. split; [done|]. split.
      + destruct Hi as [|(pat & Hpat & Hm)]; [by left|]. right.
        exists pat. split; [done|]. by apply fnmatch_glob.
      + destruct He as [|He]; [by left|]. right.
        intros pat Hpat. apply fnmatch_not_glob. by apply He.
    - intros (name' & [= <-] & Hi & He). split.
      + destruct Hi as [|(pat & Hpat & Hm)]; [by left|]. right.
        exists pat. split; [done|]. by apply fnmatch_glob.
      + destruct He as [|He]; [by left|]. right.
        intros pat Hpat. apply fnmatch_not_glob. by apply He. }
  assert (Hplugins :
     Manager.plugins (Manager.create s resolve explicit path inc exc) =
     List.filter keep (explicit ++ concat (map resolve path)))
    by apply filter_twice.
  split; [by exists keep|]. split; [|split; [exact fnmatch_glob|]].
  - intros r name pi pe Hid Hpi Hmi Hpe Hme Hin.
    rewrite Hplugins, list_elem_of_In, filter_In in Hin. destruct Hin as [_ Hin].
    apply Hkeep in Hin as (name' & Hid' & _ & [Hnone|Hall]).
    + rewrite Hnone in Hpe. by apply not_elem_of_nil in Hpe.
    + assert (name' = name) as -> by congruence. by apply (Hall pe Hpe).
  - split; [|by vm_compute].
    split; [by apply fnmatch_glob; vm_compute|].
    split; [by apply fnmatch_not_glob; vm_compute|].
    split; [by apply fnmatch_glob; vm_compute|].
    split; [by apply fnmatch_not_glob; vm_compute|].
    by apply fnmatch_not_glob; vm_compute.
Qed.

(** A pass over plugins with an operation that raises [flag] whenever it
    succeeds. *)
Lemma call_each_pass (op : Manager.Plugin -> option Manager.Plugin)
    (flag : Manager.Plugin -> bool) :
  (forall p p', op p = Some p' -> flag p' = true) ->
  forall l s,
    (forall r, r ∉ l -> (Manager.call_each op l s).2 !! r = s !! r) /\
    (forall r p, s !! r = Some p -> flag p = true ->
       exists p', (Manager.call_each op l s).2 !! r = Some p' /\ flag p' = true) /\
    ((Manager.call_each op l s).1 = [] ->
     forall r p, r ∈ l -> s !! r = Some p ->
       exists p', (Manager.call_each op l s).2 !! r = Some p' /\ flag p' = true).
Proof.
  intros Hop. induction l as [|x l IH]; intros s.
  { cbn. split; [done|]. split; [by eauto|]. intros _ r p Hr. by apply not_elem_of_nil in Hr. }
  cbn [Manager.call_each].
  destruct (s !! x) as [px|] eqn:Hx.
  - destruct (op px) as [px'|] eqn:Hopx.
    + assert (Hlt : x < length s) by (by eapply lookup_lt_Some).
      destruct (IH (<[x := px']> s)) as (Hout & Hkeep & Hall).
      split; [|split].
      * intros r Hr. apply not_elem_of_cons in Hr as [Hne Hr].
        rewrite (Hout r Hr). by apply list_lookup_insert_ne.
      * intros r p Hr Hf. destruct (decide (r = x)) as [->|Hne].
        -- apply (Hkeep x px'); [by apply list_lookup_insert_eq|by eapply Hop].
        -- apply (Hkeep r p); [by rewrite list_lookup_insert_ne|done].
      * intros Hnone r p Hr Hs. destruct (decide (r = x)) as [->|Hne].
        -- apply (Hkeep x px'); [by apply list_lookup_insert_eq|by eapply Hop].
        -- apply elem_of_cons in Hr as [|Hr]; [done|].
           apply (Hall Hnone r p Hr). by rewrite list_lookup_insert_ne.
    + destruct (IH s) as (Hout & Hkeep & Hall).
      destruct (Manager.call_each op l s) as [failed s'] eqn:E. cbn [fst snd] in *.
      split; [|split; [done|done]].
      intros r Hr. apply not_elem_of_cons in Hr as [Hne Hr]. by apply Hout.
  - destruct (IH s) as (Hout & Hkeep & Hall).
    split; [|split; [done|]].
    + intros r Hr. apply not_elem_of_cons in Hr as [Hne Hr]. by apply Hout.
    + intros Hnone r p Hr Hs. apply elem_of_cons in Hr as [->|Hr]; [congruence|].
      by apply (Hall Hnone r p).
Qed.

Lemma report_returned failed : Manager.report failed = Manager.Returned -> failed = [].
Proof. by destruct failed. Qed.

(** C8. When [start()] returns, every plugin the manager holds has
    [started] true, and when [stop()] returns every one of them has
    [stopped] true; a plugin the manager does not hold, one the filter left
    out among them, is the same after either call as before. The four runs
    of [_test_start_and_stop] in the test case pass. *)
Theorem start_and_stop_reach_the_held_plugins m s :
  ((Manager.start m s).1 = Manager.Returned ->
   forall r p, r ∈ Manager.plugins m -> s !! r = Some p ->
     exists p', (Manager.start m s).2 !! r = Some p' /\ Manager.started p' = true) /\
  ((Manager.stop m s).1 = Manager.Returned ->
   forall r p, r ∈ Manager.plugins m -> s !! r = Some p ->
     exists p', (Manager.stop m s).2 !! r = Some p' /\ Manager.stopped p' = true) /\
  (forall r, r ∉ Manager.plugins m ->
     (Manager.start m s).2 !! r = s !! r /\ (Manager.stop m s).2 !! r = s !! r) /\
  (Manager.test_only_find_plugins_whose_ids_are_in_the_include_list = true /\
   Manager.test_only_find_plugins_matching_a_wildcard_in_the_include_list = true /\
   Manager.test_ignore_plugins_whose_ids_are_in_the_exclude_list = true /\
   Manager.test_ignore_plugins_matching_a_wildcard_in_the_exclude_list = true).
Proof.
  assert (Hstart : forall p p', Manager.plugin_start p = Some p' -> Manager.started p' = true).
  { intros p p'. unfold Manager.plugin_start.
    destruct (Manager.start_succeeds p); [|done]. by intros [= <-]. }
  assert (Hstop : forall p p', Manager.plugin_stop p = Some p' -> Manager.stopped p' = true).
  { intros p p'. unfold Manager.plugin_stop.
    destruct (Manager.stop_succeeds p); [|done]. by intros [= <-]. }
  destruct (call_each_pass _ _ Hstart (Manager.plugins m) s) as (Hout1 & _ & Hall1).
  destruct (call_each_pass _ _ Hstop (rev (Manager.plugins m)) s) as (Hout2 & _ & Hall2).
  unfold Manager.start, Manager.stop.
  destruct (Manager.call_each Manager.plugin_start _ s) as [f1 s1].
  destruct (Manager.call_each Manager.plugin_stop _ s) as [f2 s2].
  cbn [fst snd] in *. split; [|split; [|split]].
  - intros Hret. apply Hall1. by apply report_returned.
  - intros Hret r p Hr. apply Hall2; [by apply report_returned|].
    by rewrite list_elem_of_In, <- in_rev, <- list_elem_of_In.
  - intros r Hr. split; [by apply Hout1|]. apply Hout2.
    by rewrite list_elem_of_In, <- in_rev, <- list_elem_of_In.
  - by vm_compute.
Qed.

(** * The claims on the example states *)

Lemma w1_wired b : b ∈ hooked "views" (listeners r1) -> wired w1 "views" b.
Proof.
  intros Hb. apply list_elem_of_singleton in Hb as ->.
  exists bd1, 7, h1. do 4 (split; [reflexivity|]). split; [done|].
  intros b' Hb'. by apply list_elem_of_singleton in Hb'.
Defined.

Lemma w1_hooked : hooked_on_trait w1 7 0 "views".
Proof. exists h1. split; [reflexivity|]. by apply list_elem_of_singleton. Qed.

Lemma w1_listening : listening w1 0 "views".
Proof. exists r1. split; [reflexivity|]. by apply list_elem_of_singleton. Qed.

(** C1 on [w1]: the registry is given [["c"]] for ["views"] from outside. *)
Lemma registry_change_reaches_field_once_witness :
  exists w' t,
    registry_set_extensions 2 "views" ["c"] w1 = (Ok tt, w') /\
    trace w' = trace w1 ++ t /\
    registry_writes t = 1 /\
    registered w' "views" = Some ["c"] /\
    field w' 7 "views" = Some ["c"] /\
    handled w' 0 = false.
Proof.
  refine (proj2 (registry_change_reaches_field_once 0 w1 r1 "views" ["c"] 0 bd1 7
                   _ _ _ _ _)).
  - reflexivity.
  - exact w1_wired.
  - by apply list_elem_of_singleton.
  - reflexivity.
  - reflexivity.
Defined.

(** C2 on [w1]: the user assigns [["z"]] to the bound field. *)
Lemma field_write_round_trip_witness :
  exists w' t,
    obj_set 3 (Some 7) "views" ["z"] true w1 = (Ok tt, w') /\
    trace w' = trace w1 ++ set_call 7 "views" ["z"] true ::
                           set_extensions_call "views" ["z"] :: t /\
    registry_writes (set_call 7 "views" ["z"] true ::
                     set_extensions_call "views" ["z"] :: t) = 1 /\
    registered w' "views" = Some ["z"] /\
    set_call 7 "views" ["z"] true ∈ t /\
    field w' 7 "views" = Some ["z"] /\
    handled w' 0 = false.
Proof.
  refine (field_write_round_trip 0 w1 r1 0 bd1 7 h1 ["z"] _ _ _ _ _ _ _ _ _).
  - reflexivity.
  - reflexivity.
  - reflexivity.
  - reflexivity.
  - reflexivity.
  - reflexivity.
  - reflexivity.
  - by apply list_elem_of_singleton.
  - exact w1_wired.
Defined.

(** C4 on [w1]: the listener returns, the flag is clear, and a field change
    delivered afterwards is passed on to the registry. *)
Lemma flag_covers_the_write_witness :
  exists w',
    on_extension_point_changed 1 0 "views" ["c"] ["a"; "b"] w1 = (Ok tt, w') /\
    handled w' 0 = false /\
    exists t,
      trace (on_trait_changed 1 0 7 "views" None ["z"] w').2 =
      trace w' ++ set_extensions_call "views" ["z"] :: t.
Proof.
  eexists. split; [reflexivity|].
  destruct (proj1 (flag_covers_the_write 1 w1 0 bd1 "views" ["c"] ["a"; "b"] eq_refl)
              _ eq_refl)
    as (wa & v & wa' & wb & _ & _ & _ & _ & _ & _ & Hclear & Hlater).
  split; [exact Hclear|]. exact (Hlater 1 7 "views" None ["z"]).
Defined.

(** C5 on [w0]. *)
Lemma construction_pulls_then_subscribes_witness :
  exists self w',
    new 0 (Some 7) "views" "views" w0 = (Ok self, w') /\
    self = 0 /\
    trace w' = [get_extensions_call "views";
                set_call 7 "views" ["a"; "b"] false;
                on_trait_change_call 7 self "views";
                add_extension_listener_call self "views"] /\
    field w' 7 "views" = Some ["a"; "b"] /\
    hooked_on_trait w' 7 self "views" /\
    listening w' self "views" /\
    bindings w' !! self = Some (mkBinding (Some 7) "views" "views" false) /\
    registered w' "views" = registered w0 "views".
Proof.
  destruct (construction_pulls_then_subscribes 0 7 h0 r0 "views" "views" w0
              eq_refl eq_refl)
    as (self & w' & Hnew & _ & H); [done|].
  exists self, w'. exact (conj Hnew H).
Defined.

(** C7 on [w0]: the empty field name, and a name the object has no
    attribute for. *)
Lemma construction_checks_no_field_name_witness :
  (exists self w',
     new 0 (Some 7) "" "views" w0 = (Ok self, w') /\
     field w' 7 "" = Some ["a"; "b"] /\
     set_call 7 "" ["a"; "b"] false ∈ trace w' /\
     hooked_on_trait w' 7 self "" /\
     listening w' self "views") /\
  (exists self w',
     new 0 (Some 7) "colour" "views" w0 = (Ok self, w') /\
     field w' 7 "colour" = Some ["a"; "b"] /\
     set_call 7 "colour" ["a"; "b"] false ∈ trace w' /\
     hooked_on_trait w' 7 self "colour" /\
     listening w' self "views").
Proof.
  split.
  - refine (construction_checks_no_field_name 0 7 h0 r0 "" "views" w0
              eq_refl eq_refl _ _); [done|by left].
  - refine (construction_checks_no_field_name 0 7 h0 r0 "colour" "views" w0
              eq_refl eq_refl _ _); [done|by right].
Defined.

(** C9 on [w0] with the class attribute at [None]. *)
Lemma construction_without_registry_witness :
  exists w',
    new 0 (Some 7) "views" "views" w0_no_registry = (Raise AttributeError, w') /\
    heap w' = heap w0_no_registry /\
    extension_registry w' = None /\
    trace w' = trace w0_no_registry /\
    (forall a b n, hooked_on_trait w' a b n <-> hooked_on_trait w0_no_registry a b n) /\
    (forall b i, ~ listening w' b i) /\
    (forall self notify,
       set_trait 0 self notify w0_no_registry = (Raise AttributeError, w0_no_registry)).
Proof.
  exact (construction_without_registry 0 (Some 7) "views" "views" w0_no_registry
           eq_refl).
Defined.

(** C8 on the fixture: the manager built with [include=["acme.b*"]] starts
    and stops the two plugins it holds and leaves [acme.foo] alone. *)
Lemma start_and_stop_reach_the_held_plugins_witness :
  (exists p', (Manager.start (Manager.canopy (Some ["acme.b*"]) None) Manager.eggs).2 !! 1
              = Some p' /\ Manager.started p' = true) /\
  (exists p', (Manager.stop (Manager.canopy (Some ["acme.b*"]) None) Manager.eggs).2 !! 2
              = Some p' /\ Manager.stopped p' = true) /\
  (Manager.start (Manager.canopy (Some ["acme.b*"]) None) Manager.eggs).2 !! 0
    = Manager.eggs !! 0 /\
  (Manager.stop (Manager.canopy (Some ["acme.b*"]) None) Manager.eggs).2 !! 0
    = Manager.eggs !! 0.
Proof.
  destruct (start_and_stop_reach_the_held_plugins
              (Manager.canopy (Some ["acme.b*"]) None) Manager.eggs)
    as (Hstart & Hstop & Hout & _).
  split; [|split].
  - refine (Hstart eq_refl 1 _ _ eq_refl). by apply list_elem_of_here.
  - refine (Hstop eq_refl 2 _ _ eq_refl). apply list_elem_of_further, list_elem_of_here.
  - apply Hout. intros Hin. vm_compute in Hin.
    apply elem_of_cons in Hin as [|Hin]; [done|].
    apply list_elem_of_singleton in Hin. done.
Defined.

(** C1 as stated fails for a binding that shares its field. The factory
    binds the field ["views"] a second time, to ["actions"]. A change then
    delivered to the listener of the first binding writes the field, and
    the handler of the second binding, whose flag is clear, passes the
    write on: a [set_extensions] call is made during the handling, and its
    listener writes the field again. After
    [registry.set_extensions("views", ["c"])] from outside the registry has
    been written twice. The same on an object that notifies only of a
    value that differs, with ["views"] bound to ["views"] twice. *)
Lemma second_binding_echoes_the_change :
  (new 0 (Some 7) "views" "actions" w1).1 = Ok 1 /\
  handled w1_shared 0 = false /\
  (on_extension_point_changed 3 0 "views" ["c"] ["a"; "b"] w1_shared).1 = Ok tt /\
  trace (on_extension_point_changed 3 0 "views" ["c"] ["a"; "b"] w1_shared).2 =
    trace w1_shared ++
    [get_extensions_call "views"; set_call 7 "views" ["a"; "b"] true;
     set_extensions_call "actions" ["a"; "b"];
     get_extensions_call "actions"; set_call 7 "views" ["a"; "b"] true] /\
  (registry_set_extensions 4 "views" ["c"] w1_shared).1 = Ok tt /\
  trace (registry_set_extensions 4 "views" ["c"] w1_shared).2 =
    trace w1_shared ++
    [set_extensions_call "views" ["c"]; get_extensions_call "views";
     set_call 7 "views" ["c"] true; set_extensions_call "actions" ["c"];
     get_extensions_call "actions"; set_call 7 "views" ["c"] true] /\
  registry_writes
    (drop (length (trace w1_shared))
       (trace (registry_set_extensions 4 "views" ["c"] w1_shared).2)) = 2 /\
  (new 0 (Some 7) "views" "views" w1_differs).1 = Ok 1 /\
  (registry_set_extensions 4 "views" ["c"] w1_differs_shared).1 = Ok tt /\
  trace (registry_set_extensions 4 "views" ["c"] w1_differs_shared).2 =
    trace w1_differs_shared ++
    [set_extensions_call "views" ["c"]; get_extensions_call "views";
     set_call 7 "views" ["c"] true; set_extensions_call "views" ["c"];
     get_extensions_call "views"; set_call 7 "views" ["c"] true;
     get_extensions_call "views"; set_call 7 "views" ["c"] true;
     get_extensions_call "views"; set_call 7 "views" ["c"] true] /\
  registry_writes
    (drop (length (trace w1_differs_shared))
       (trace (registry_set_extensions 4 "views" ["c"] w1_differs_shared).2)) = 2.
Proof. repeat split; vm_compute; reflexivity. Qed.

(** C2 as stated fails for a binding that shares its field, and for a
    write that is no change. With ["views"] bound to ["views"] twice on an
    object that notifies only of a value that differs, both flags clear,
    the user's assignment of [["z"]] makes two [set_extensions] calls for
    ["views"]; on [w1] with the field bound a second time, to ["actions"],
    it makes four, two of them for ["views"]. And with a single binding,
    assigning the value the field already holds makes none. *)
Lemma second_binding_multiplies_the_write :
  handled w1_differs_shared 0 = false /\
  handled w1_differs_shared 1 = false /\
  (obj_set 4 (Some 7) "views" ["z"] true w1_differs_shared).1 = Ok tt /\
  trace (obj_set 4 (Some 7) "views" ["z"] true w1_differs_shared).2 =
    trace w1_differs_shared ++
    [set_call 7 "views" ["z"] true; set_extensions_call "views" ["z"];
     get_extensions_call "views"; set_call 7 "views" ["z"] true;
     get_extensions_call "views"; set_call 7 "views" ["z"] true;
     set_extensions_call "views" ["z"]; get_extensions_call "views";
     set_call 7 "views" ["z"] true; get_extensions_call "views";
     set_call 7 "views" ["z"] true] /\
  registry_writes
    (drop (length (trace w1_differs_shared))
       (trace (obj_set 4 (Some 7) "views" ["z"] true w1_differs_shared).2)) = 2 /\
  (obj_set 5 (Some 7) "views" ["z"] true w1_shared).1 = Ok tt /\
  trace (obj_set 5 (Some 7) "views" ["z"] true w1_shared).2 =
    trace w1_shared ++
    [set_call 7 "views" ["z"] true; set_extensions_call "views" ["z"];
     get_extensions_call "views"; set_call 7 "views" ["z"] true;
     set_extensions_call "actions" ["z"]; get_extensions_call "actions";
     set_call 7 "views" ["z"] true; set_extensions_call "actions" ["z"];
     get_extensions_call "actions"; set_call 7 "views" ["z"] true;
     set_extensions_call "views" ["z"]; get_extensions_call "views";
     set_call 7 "views" ["z"] true] /\
  registry_writes
    (drop (length (trace w1_shared))
       (trace (obj_set 5 (Some 7) "views" ["z"] true w1_shared).2)) = 4 /\
  field w1_differs 7 "views" = Some ["a"; "b"] /\
  handled w1_differs 0 = false /\
  (obj_set 3 (Some 7) "views" ["a"; "b"] true w1_differs).1 = Ok tt /\
  trace (obj_set 3 (Some 7) "views" ["a"; "b"] true w1_differs).2 =
    trace w1_differs ++ [set_call 7 "views" ["a"; "b"] true].
Proof. repeat split; vm_compute; reflexivity. Qed.

(** C4 as stated fails. The flag is set before the field write begins:
    with the class attribute at [None] the registry read raises with the
    flag already set and no call made yet. And a listener that raises
    leaves the flag set: so it is after that read, and so it is when the
    binding's object is [None] and the field write raises; the next
    assignment to the field is then not passed on to the registry. *)
Lemma flag_stays_set_after_exception :
  (on_extension_point_changed 1 0 "views" ["c"] ["a"; "b"] w1_no_registry).1
    = Raise AttributeError /\
  trace after_failed_read = trace w1_no_registry /\
  handled after_failed_read 0 = true /\
  (registry_set_extensions 2 "views" ["c"] w1_no_object).1 = Raise AttributeError /\
  handled after_failed_write 0 = true /\
  (obj_set 3 (Some 7) "views" ["z"] true after_failed_write).1 = Ok tt /\
  trace (obj_set 3 (Some 7) "views" ["z"] true after_failed_write).2
    = trace after_failed_write ++ [set_call 7 "views" ["z"] true] /\
  registered (obj_set 3 (Some 7) "views" ["z"] true after_failed_write).2 "views"
    = Some ["c"].
Proof. repeat split; reflexivity. Qed.

(** C6 as stated fails: on [w1], where binding 0 is subscribed on both
    sides, no operation of the binding, with whatever arguments, takes
    either subscription away. *)
Lemma no_operation_unsubscribes :
  ~ exists m fuel,
      ~ hooked_on_trait (invoke fuel 0 m w1).2 7 0 "views" \/
      ~ listening (invoke fuel 0 m w1).2 0 "views".
Proof.
  intros (m & fuel & [H|H]); apply H.
  - apply invoke_keeps; [exact "views"|exact w1_hooked].
  - apply (invoke_keeps fuel 0 m w1 7 0 "views" "views"). exact w1_listening.
Qed.

(** C7 as stated fails: with the empty field name, and with a name the
    object has no attribute for, construction succeeds, writes the field
    and subscribes on both sides. *)
Lemma construction_accepts_any_field_name :
  new 0 (Some 7) "" "views" w0 =
    (Ok 0,
     mkWorld (Some (mkRegistry {[ "views" := ["a"; "b"] ]} [(0, "views")]))
       {[ 7 := mkHasTraits {[ "" := ["a"; "b"] ]} always [(0, "")] ]}
       [mkBinding (Some 7) "views" "" false]
       [get_extensions_call "views"; set_call 7 "" ["a"; "b"] false;
        on_trait_change_call 7 0 ""; add_extension_listener_call 0 "views"]) /\
  field w0 7 "colour" = None /\
  new 0 (Some 7) "colour" "views" w0 =
    (Ok 0,
     mkWorld (Some (mkRegistry {[ "views" := ["a"; "b"] ]} [(0, "views")]))
       {[ 7 := mkHasTraits {[ "colour" := ["a"; "b"] ]} always [(0, "colour")] ]}
       [mkBinding (Some 7) "views" "colour" false]
       [get_extensions_call "views"; set_call 7 "colour" ["a"; "b"] false;
        on_trait_change_call 7 0 "colour"; add_extension_listener_call 0 "views"]).
Proof. repeat split; reflexivity. Qed.

(** * Further properties of the binding *)

(** X1. The handlers and [_set_trait], and with them the registry's
    [set_extensions] and the object's [set] that call them back to any
    depth, rewire nothing: the listeners of the registry and the handlers
    hooked on every object are the same lists afterwards, no binding is
    created and none has its [obj], [extension_point] or [trait_name]
    assigned, and the calls made before are still the beginning of the
    trace. This holds whether they return or raise. *)
Theorem handlers_keep_the_wiring fuel w :
  (forall self o name old new,
     frame w (on_trait_changed fuel self o name old new w).2) /\
  (forall self id added removed,
     frame w (on_extension_point_changed fuel self id added removed w).2) /\
  (forall self notify, frame w (set_trait fuel self notify w).2) /\
  (forall id v, frame w (registry_set_extensions fuel id v w).2) /\
  (forall o name v notify, frame w (obj_set fuel o name v notify w).2).
Proof.
  split; [|split; [|split; [|split]]]; intros.
  - apply frame_on_trait_changed, frame_registry_set_extensions.
  - apply frame_on_extension_point_changed, frame_obj_set.
  - apply frame_set_trait, frame_obj_set.
  - apply frame_registry_set_extensions.
  - apply frame_obj_set.
Qed.

(** ** Flags after a normal return *)

Lemma calm_refl w : calm w w.
Proof. by intros b. Qed.

Lemma calm_trans w1 w2 w3 : calm w1 w2 -> calm w2 w3 -> calm w1 w3.
Proof. intros H1 H2 b Hb. by apply H1, H2. Qed.

Lemma calm_same_bindings w w' : bindings w' = bindings w -> calm w w'.
Proof. intros E b. unfold handled. by rewrite E. Qed.

Lemma quiet_for_each {A} (l : list A) (f : A -> M unit) :
  (forall x, quiet (f x)) -> quiet (for_each l f).
Proof.
  intros Hf. induction l as [|x l IH]; intros w [] w'.
  - intros [= <-]. apply calm_refl.
  - rewrite for_each_cons. destruct (f x w) as [[[]|e] w1] eqn:E; [|done].
    intros Hrest. eapply calm_trans; [by eapply Hf|by eapply IH].
Qed.

Section QuietMethods.

Variable set_extensions : string -> value -> M unit.
Variable HasTraits_set : option objref -> string -> value -> bool -> M unit.
Hypothesis quiet_set_extensions : forall id v, quiet (set_extensions id v).
Hypothesis quiet_HasTraits_set :
  forall o name v notify, quiet (HasTraits_set o name v notify).

Lemma quiet_on_trait_changed self o name old new :
  quiet (_on_trait_changed set_extensions self o name old new).
Proof using quiet_set_extensions.
  intros w [] w'. unfold _on_trait_changed. msimpl.
  destruct (_event_handled (bindings w !!! self)); cbn.
  - intros [= <-]. apply calm_refl.
  - destruct (extension_registry w); [|done]. apply quiet_set_extensions.
Qed.

Lemma quiet_set_trait self notify :
  quiet (_set_trait HasTraits_set self notify).
Proof using quiet_HasTraits_set.
  intros w [] w'. unfold _set_trait. msimpl.
  destruct (extension_registry w); [|done]. msimpl.
  destruct (obj (bindings w !!! self)) as [a|]; [|done].
  destruct (heap w !! a); [|done].
  destruct (String.eqb _ _); [done|].
  intros H. eapply calm_trans; [|by eapply quiet_HasTraits_set].
  by apply calm_same_bindings.
Qed.

Lemma on_extension_point_changed_clears self id added removed w w' :
  _on_extension_point_changed HasTraits_set self id added removed w = (Ok tt, w') ->
  calm w w' /\ handled w' self = false.
Proof using quiet_HasTraits_set.
  unfold _on_extension_point_changed. unfold bind at 1.
  unfold set_event_handled at 1. unfold bind at 1.
  destruct (_set_trait HasTraits_set self true _) as [[[]|e] w2] eqn:H2; [|done].
  apply quiet_set_trait in H2.
  unfold set_event_handled. intros [= <-].
  assert (Hself : forall (l : list ExtensionPointBinding) x,
            _event_handled x = false ->
            _event_handled (<[self := x]> l !!! self) = false).
  { intros l x Hx. destruct (decide (self < length l)) as [Hlt|Hge].
    - by rewrite list_lookup_total_insert_eq.
    - rewrite list_insert_ge by lia. rewrite list_lookup_total_alt.
      rewrite lookup_ge_None_2 by lia. done. }
  split; [|by apply Hself].
  intros b Hb. unfold handled in *. cbn [bindings with_bindings] in *.
  destruct (decide (b = self)) as [->|Hne].
  - by rewrite Hself in Hb.
  - rewrite list_lookup_total_insert_ne in Hb by done.
    apply H2 in Hb. unfold handled in Hb. cbn [bindings with_bindings] in Hb.
    by rewrite list_lookup_total_insert_ne in Hb.
Qed.

End QuietMethods.

Lemma quiet_write_side fuel :
  (forall id v, quiet (registry_set_extensions fuel id v)) /\
  (forall o name v notify, quiet (obj_set fuel o name v notify)).
Proof.
  induction fuel as [|n [IHr IHo]]; split.
  - intros id v w [] w'. rewrite registry_set_extensions_unfold. msimpl.
    destruct (extension_registry w); [|done]. msimpl.
    intros H. eapply calm_trans; [|eapply quiet_for_each; [|exact H]].
    + by apply calm_same_bindings.
    + intros b w1 [] w2. done.
  - intros o name v notify w [] w'. rewrite obj_set_unfold. msimpl.
    destruct o as [a|]; [|done]. destruct (heap w !! a) as [h|]; [|done]. msimpl.
    destruct (notify && changed h name (attrs h !! name) v).
    + intros H. eapply calm_trans; [|eapply quiet_for_each; [|exact H]].
      * by apply calm_same_bindings.
      * intros b w1 [] w2. done.
    + intros [= <-]. by apply calm_same_bindings.
  - intros id v w [] w'. rewrite registry_set_extensions_unfold. msimpl.
    destruct (extension_registry w); [|done]. msimpl.
    intros H. eapply calm_trans; [|eapply quiet_for_each; [|exact H]].
    + by apply calm_same_bindings.
    + intros b w1 [] w2 Hb. by eapply on_extension_point_changed_clears.
  - intros o name v notify w [] w'. rewrite obj_set_unfold. msimpl.
    destruct o as [a|]; [|done]. destruct (heap w !! a) as [h|]; [|done]. msimpl.
    destruct (notify && changed h name (attrs h !! name) v).
    + intros H. eapply calm_trans; [|eapply quiet_for_each; [|exact H]].
      * by apply calm_same_bindings.
      * intros b. by apply quiet_on_trait_changed.
    + intros [= <-]. by apply calm_same_bindings.
Qed.

(** X2. A normal return leaves no flag behind. When
    [registry.set_extensions], [obj.set] or a handler returns, whatever
    the state it started from and however deep the notifications went, no
    binding has its flag set that did not have it set before; and when the
    listener of a binding returns, that binding's flag is clear, also when
    it was stuck before. *)
Theorem normal_return_sets_no_flag fuel w w' :
  (forall id v,
     registry_set_extensions fuel id v w = (Ok tt, w') ->
     forall b, handled w' b = true -> handled w b = true) /\
  (forall o name v notify,
     obj_set fuel o name v notify w = (Ok tt, w') ->
     forall b, handled w' b = true -> handled w b = true) /\
  (forall self o name old new,
     on_trait_changed fuel self o name old new w = (Ok tt, w') ->
     forall b, handled w' b = true -> handled w b = true) /\
  (forall self id added removed,
     on_extension_point_changed fuel self id added removed w = (Ok tt, w') ->
     handled w' self = false /\
     forall b, handled w' b = true -> handled w b = true).
Proof.
  split; [|split; [|split]].
  - intros id v H. exact (proj1 (quiet_write_side fuel) id v w tt w' H).
  - intros o name v notify H.
    exact (proj2 (quiet_write_side fuel) o name v notify w tt w' H).
  - intros self o name old new H.
    exact (quiet_on_trait_changed _ (proj1 (quiet_write_side fuel))
             self o name old new w tt w' H).
  - intros self id added removed H.
    destruct (on_extension_point_changed_clears _ (proj2 (quiet_write_side fuel))
                self id added removed w w' H) as [Hc Hs].
    by split.
Qed.

(** ** Bound fields follow the registry *)

Lemma listeners_told_elsewhere n id added removed a name l :
  forall w r,
    extension_registry w = Some r ->
    (forall b, b ∈ l -> wired w id b) ->
    (forall b bd, b ∈ l -> bindings w !! b = Some bd -> obj bd = Some a ->
                  trait_name bd <> name) ->
    field (for_each l
             (fun b => _on_extension_point_changed (obj_set (S n)) b id added removed)
             w).2 a name = field w a name.
Proof.
  induction l as [|x l IH]; intros w r Hr Hwired Hnot; [done|].
  destruct (Hwired x) as (bd & a0 & h & Hb & Hid & Ha & Hh & Hkw & Hpriv); [by left|].
  pose proof (on_extension_point_changed_run n x w bd r a0 h id added removed
                Hb Hr Ha Hh Hkw Hpriv) as Hrun.
  unfold on_extension_point_changed in Hrun.
  pose proof (frame_on_extension_point_changed (obj_set (S n)) (frame_obj_set (S n))
                x id added removed w) as F1.
  rewrite for_each_cons, Hrun. rewrite Hrun in F1. cbn [snd] in F1.
  set (w1 := mkWorld (Some r) _ _ _) in *.
  destruct (field_assigned w w1 a0 (trait_name bd)
              (default [] (extensions r !! extension_point bd)) h (changed h)
              (trait_listeners h) Hh eq_refl) as [_ Hf1].
  rewrite (IH w1 r eq_refl).
  - apply Hf1. intros [= -> E]. by eapply (Hnot x bd); [left|..].
  - intros b Hbl. apply (frame_wired w); [done|]. apply Hwired. by right.
  - intros b bd1 Hbl Hb1 Ha1.
    destruct (Hwired b) as (bd0 & _ & _ & Hb0 & _); [by right|].
    destruct (frame_binding _ _ _ _ F1 Hb0) as (bd' & Hb' & HW).
    assert (bd' = bd1) as -> by congruence.
    unfold wiring in HW. injection HW as Ho He Hn.
    rewrite Hn. eapply (Hnot b bd0); [by right|done|congruence].
Qed.

Lemma registry_set_extensions_elsewhere n id v a name w r :
  extension_registry w = Some r ->
  (forall b, b ∈ hooked id (listeners r) -> wired w id b) ->
  (forall b bd, b ∈ hooked id (listeners r) -> bindings w !! b = Some bd ->
                obj bd = Some a -> trait_name bd <> name) ->
  field (registry_set_extensions (S (S n)) id v w).2 a name = field w a name.
Proof.
  intros Hr Hwired Hnot.
  rewrite registry_set_extensions_unfold. msimpl. rewrite Hr. msimpl.
  set (r' := mkRegistry (<[id := v]> (extensions r)) (listeners r)).
  set (w1 := mkWorld (Some r') (heap w) (bindings w) (trace w ++ [set_extensions_call id v])).
  assert (F1 : frame w w1) by (by apply frame_store_extensions).
  rewrite (listeners_told_elsewhere n id v (default [] (extensions r !! id)) a name
             (hooked id (listeners r)) w1 r' eq_refl); [done|..].
  - intros b Hb. apply (frame_wired w); [done|]. by apply Hwired.
  - done.
Qed.

Lemma tidy_fields_differ w r b b' id id' bd bd' a :
  tidy w -> extension_registry w = Some r ->
  (b, id) ∈ listeners r -> (b', id') ∈ listeners r ->
  bindings w !! b = Some bd -> bindings w !! b' = Some bd' ->
  obj bd = Some a -> obj bd' = Some a -> trait_name bd = trait_name bd' ->
  b = b' /\ id = id'.
Proof.
  intros Ht Hr Hin Hin' Hb Hb' Ha Ha' Hn.
  destruct (Ht r b id Hr Hin) as (bd0 & a0 & h0 & Hb0 & Hid0 & Ha0 & Hh0 & _ & Hone0).
  destruct (Ht r b' id' Hr Hin') as (bd1 & a1 & h1 & Hb1 & Hid1 & Ha1 & Hh1 & _ & Hone1).
  assert (bd0 = bd) as -> by congruence.
  assert (bd1 = bd') as -> by congruence.
  assert (a0 = a) as -> by congruence.
  assert (a1 = a) as -> by congruence.
  assert (h1 = h0) as -> by congruence.
  rewrite Hn, Hone1 in Hone0. injection Hone0 as ->.
  split; [done|]. congruence.
Qed.

Lemma tidy_free_field w r b id bd a h name :
  tidy w -> extension_registry w = Some r -> (b, id) ∈ listeners r ->
  bindings w !! b = Some bd -> obj bd = Some a -> heap w !! a = Some h ->
  hooked name (trait_listeners h) = [] -> trait_name bd <> name.
Proof.
  intros Ht Hr Hin Hb Ha Hh Hfree <-.
  destruct (Ht r b id Hr Hin) as (bd0 & a0 & h0 & Hb0 & _ & Ha0 & Hh0 & _ & Hone0).
  assert (bd0 = bd) as -> by congruence.
  assert (a0 = a) as -> by congruence.
  assert (h0 = h) as -> by congruence.
  by rewrite Hfree in Hone0.
Qed.

Lemma hooks_listen_frame w w' : hooks_listen w -> frame w w' -> hooks_listen w'.
Proof.
  intros Hh F r' a h' b name Hr' Hh' Hin.
  pose proof (frame_listeners _ _ F) as HL. rewrite Hr' in HL. cbn in HL.
  destruct (extension_registry w) as [r|] eqn:Hr; [|done].
  cbn in HL. injection HL as HL.
  pose proof (frame_hooks _ _ F a) as HK. rewrite Hh' in HK. cbn in HK.
  destruct (heap w !! a) as [h|] eqn:Hha; [|done].
  cbn in HK. injection HK as HK. rewrite HK in Hin.
  destruct (Hh r a h b name Hr Hha Hin) as (bd & Hb & Ho & Hn & Hl).
  destruct (frame_binding _ _ _ _ F Hb) as (bd' & Hb' & HW).
  unfold wiring in HW. injection HW as Ho' He' Hn'.
  exists bd'. rewrite Ho', He', Hn', HL. done.
Qed.

(** A registry change in a state where the listeners of the other
    extension points are in sync. *)
Lemma sync_registry_change n id v w r :
  extension_registry w = Some r -> tidy w -> hooks_listen w ->
  (forall b id', (b, id') ∈ listeners r -> id' <> id ->
     exists bd a,
       bindings w !! b = Some bd /\ obj bd = Some a /\
       _event_handled bd = false /\
       field w a (trait_name bd) = Some (default [] (extensions r !! id'))) ->
  exists w',
    registry_set_extensions (S (S n)) id v w = (Ok tt, w') /\
    extension_registry w' = Some (mkRegistry (<[id := v]> (extensions r)) (listeners r)) /\
    bound w'.
Proof.
  intros Hr Ht Hh Hs.
  assert (Hwired : forall b, b ∈ hooked id (listeners r) -> wired w id b)
    by (intros b; by apply tidy_wired).
  destruct (registry_set_extensions_run n id v w r Hr Hwired)
    as (w' & t & Hrun & F & Hr' & Htr & Hq & Hfld & Hmem & Hout).
  exists w'. split; [done|]. split; [done|].
  split; [by rewrite Hr'|]. split; [by eapply tidy_frame|].
  split; [by eapply hooks_listen_frame|].
  intros r'' b id' Hr'' Hin. rewrite Hr' in Hr''. injection Hr'' as <-.
  cbn [listeners extensions] in *.
  destruct (decide (id' = id)) as [->|Hne].
  - destruct (Hmem b) as (bd & a & Hb & Ha & Hflag & Hf & _); [by apply elem_of_hooked|].
    exists bd, a. by rewrite lookup_insert_eq.
  - rewrite lookup_insert_ne by done.
    destruct (Hs b id' Hin Hne) as (bd & a & Hb & Ha & Hflag & Hf).
    destruct (Ht r b id' Hr Hin) as (bd0 & _ & _ & Hb0 & Hid0 & _).
    assert (bd0 = bd) as -> by congruence.
    assert (Hnin : b ∉ hooked id (listeners r)).
    { intros Hb2. apply elem_of_hooked in Hb2.
      destruct (Ht r b id Hr Hb2) as (bd1 & _ & _ & Hb1 & Hid1 & _). congruence. }
    exists bd, a. rewrite (Hout b Hnin). do 3 (split; [done|]).
    rewrite <- Hf.
    pose proof (registry_set_extensions_elsewhere n id v a (trait_name bd) w r Hr Hwired)
      as HE.
    rewrite Hrun in HE. apply HE.
    intros b1 bd1 Hb1in Hb1 Ha1 Hn1. apply elem_of_hooked in Hb1in.
    destruct (tidy_fields_differ w r b1 b id id' bd1 bd a Ht Hr Hb1in Hin Hb1 Hb Ha1 Ha Hn1)
      as [_ E].
    by apply Hne.
Qed.

Lemma bound_unbound w : unbound w -> bound w.
Proof.
  intros [(r & Hr & Hl) Hfree]. split; [by rewrite Hr|]. split; [|split].
  - intros r' b id Hr' Hin. rewrite Hr in Hr'. injection Hr' as <-.
    rewrite Hl in Hin. by apply not_elem_of_nil in Hin.
  - intros r' a h b name _ Hh Hin. rewrite (Hfree a h Hh) in Hin.
    by apply not_elem_of_nil in Hin.
  - intros r' b id Hr' Hin. rewrite Hr in Hr'. injection Hr' as <-.
    rewrite Hl in Hin. by apply not_elem_of_nil in Hin.
Qed.

Lemma bound_registry_change n id v w :
  bound w ->
  exists w', registry_set_extensions (S (S n)) id v w = (Ok tt, w') /\ bound w'.
Proof.
  intros ([r Hr] & Ht & Hh & Hs).
  destruct (sync_registry_change n id v w r Hr Ht Hh) as (w' & Hrun & _ & Hb).
  - intros b id' Hin _. by apply Hs.
  - by exists w'.
Qed.

Lemma obj_set_as_registry_change n w r self bd a h v :
  extension_registry w = Some r ->
  bindings w !! self = Some bd ->
  _event_handled bd = false ->
  heap w !! a = Some h ->
  hooked (trait_name bd) (trait_listeners h) = [self] ->
  changed h (trait_name bd) (attrs h !! trait_name bd) v = true ->
  obj_set (S (S (S n))) (Some a) (trait_name bd) v true w =
  registry_set_extensions (S (S n)) (extension_point bd) v
    (mkWorld (Some r)
       (<[a := mkHasTraits (<[trait_name bd := v]> (attrs h)) (changed h)
                 (trait_listeners h)]> (heap w))
       (bindings w) (trace w ++ [set_call a (trait_name bd) v true])).
Proof.
  intros Hr Hb Hflag Hh Hhook Hch.
  rewrite obj_set_unfold. msimpl. rewrite Hh. msimpl.
  rewrite Hch, Hhook. cbn [andb]. rewrite for_each_cons.
  unfold _on_trait_changed. msimpl.
  rewrite (list_lookup_total_correct _ _ _ Hb), Hflag, Hr. msimpl.
  by destruct (registry_set_extensions _ _ _ _) as [[[]|e] w'].
Qed.

Lemma bound_field_write n a h name v w :
  bound w -> heap w !! a = Some h ->
  changed h name (attrs h !! name) v = true ->
  exists w', obj_set (S (S (S n))) (Some a) name v true w = (Ok tt, w') /\ bound w'.
Proof.
  intros ([r Hr] & Ht & Hhl & Hs) Hh Hch.
  destruct (hooked name (trait_listeners h)) as [|b0 rest] eqn:Hhook.
  - rewrite obj_set_unfold. msimpl. rewrite Hh. msimpl. rewrite Hch, Hhook.
    cbn [andb for_each]. msimpl.
    eexists. split; [done|].
    set (w' := mkWorld _ _ _ _).
    assert (F : frame w w') by (by apply frame_store_attrs).
    destruct (field_assigned w w' a name v h (changed h) (trait_listeners h) Hh eq_refl)
      as [_ Hf].
    split; [by subst w'; cbn; rewrite Hr|]. split; [by eapply tidy_frame|].
    split; [by eapply hooks_listen_frame|].
    intros r' b id Hr' Hin. subst w'. cbn [extension_registry bindings] in *.
    rewrite Hr in Hr'. injection Hr' as <-.
    destruct (Hs r b id Hr Hin) as (bd & a' & Hb & Ha & Hflag & Hfld).
    exists bd, a'. do 3 (split; [done|]). rewrite <- Hfld. apply Hf.
    intros [= -> Hn]. by eapply (tidy_free_field w r b id bd a h name).
  - assert (Hin0 : (b0, name) ∈ trait_listeners h).
    { apply elem_of_hooked. rewrite Hhook. by left. }
    destruct (Hhl r a h b0 name Hr Hh Hin0) as (bd & Hb & Ho & <- & Hl).
    destruct (Ht r b0 _ Hr Hl) as (bd0 & a0 & h0 & Hb0 & _ & Ha0 & Hh0 & _ & Hone).
    assert (bd0 = bd) as -> by congruence.
    assert (a0 = a) as -> by congruence.
    assert (h0 = h) as -> by congruence.
    destruct (Hs r b0 _ Hr Hl) as (bd1 & _ & Hb1 & _ & Hflag & _).
    assert (bd1 = bd) as -> by congruence.
    rewrite (obj_set_as_registry_change n w r b0 bd a h v) by done.
    set (w1 := mkWorld _ _ _ _).
    assert (F : frame w w1).
    { subst w1. rewrite <- Hr. by apply frame_store_attrs. }
    destruct (field_assigned w w1 a (trait_name bd) v h (changed h) (trait_listeners h)
                Hh eq_refl) as [_ Hf].
    destruct (sync_registry_change n (extension_point bd) v w1 r eq_refl)
      as (w' & Hrun & _ & Hbound).
    + by eapply tidy_frame.
    + by eapply hooks_listen_frame.
    + intros b id' Hin Hne.
      destruct (Hs r b id' Hr Hin) as (bd' & a' & Hb' & Ha' & Hflag' & Hfld').
      exists bd', a'. do 3 (split; [done|]). rewrite <- Hfld'. apply Hf.
      intros [= -> Hn].
      destruct (tidy_fields_differ w r b b0 id' (extension_point bd) bd' bd a
                  Ht Hr Hin Hl Hb' Hb Ha' Ho Hn) as [_ E].
      by apply Hne.
    + by exists w'.
Qed.

Lemma bound_new fuel a h name id w :
  bound w -> heap w !! a = Some h ->
  hooked name (trait_listeners h) = [] ->
  name <> trait_change_notify ->
  bound (new fuel (Some a) name id w).2.
Proof.
  intros ([r Hr] & Ht & Hhl & Hs) Hh Hfree Hkw.
  split; [|split; [by eapply tidy_new|]].
  { by rewrite (new_run fuel a h r). }
  rewrite (new_run fuel a h r) by done. cbn [snd].
  destruct (field_assigned w
              (mkWorld
                 (Some (mkRegistry (extensions r) (listeners r ++ [(length (bindings w), id)])))
                 (<[a := mkHasTraits (<[name := default [] (extensions r !! id)]> (attrs h))
                           (changed h)
                           (trait_listeners h ++ [(length (bindings w), name)])]> (heap w))
                 (bindings w ++ [mkBinding (Some a) id name false])
                 (trace w ++ [get_extensions_call id;
                              set_call a name (default [] (extensions r !! id)) false;
                              on_trait_change_call a (length (bindings w)) name;
                              add_extension_listener_call (length (bindings w)) id]))
              a name (default [] (extensions r !! id)) h (changed h)
              (trait_listeners h ++ [(length (bindings w), name)]) Hh eq_refl)
    as [Hf1 Hf].
  split.
  - intros r' a' h' b name' [= <-] Hh' Hin. cbn [heap bindings listeners] in *.
    destruct (decide (a = a')) as [<-|Hne].
    + rewrite lookup_insert_eq in Hh'. injection Hh' as <-. cbn [trait_listeners] in Hin.
      apply elem_of_app in Hin as [Hin|Hin].
      * destruct (Hhl r a h b name' Hr Hh Hin) as (bd & Hb & Ho & Hn & Hl).
        exists bd. split; [by apply lookup_app_l_Some|]. do 2 (split; [done|]).
        apply elem_of_app. by left.
      * apply list_elem_of_singleton in Hin. injection Hin as -> ->.
        exists (mkBinding (Some a) id name false).
        split; [by rewrite lookup_app_r, Nat.sub_diag|]. do 2 (split; [done|]).
        apply elem_of_app. right. by apply list_elem_of_singleton.
    + rewrite lookup_insert_ne in Hh' by done.
      destruct (Hhl r a' h' b name' Hr Hh' Hin) as (bd & Hb & Ho & Hn & Hl).
      exists bd. split; [by apply lookup_app_l_Some|]. do 2 (split; [done|]).
      apply elem_of_app. by left.
  - intros r' b id' [= <-] Hin. cbn [bindings listeners extensions] in *.
    apply elem_of_app in Hin as [Hin|Hin].
    + destruct (Hs r b id' Hr Hin) as (bd & a' & Hb & Ha & Hflag & Hfld).
      exists bd, a'. split; [by apply lookup_app_l_Some|]. do 2 (split; [done|]).
      rewrite <- Hfld. apply Hf.
      intros [= -> Hn]. by eapply (tidy_free_field w r b id' bd a h name).
    + apply list_elem_of_singleton in Hin. injection Hin as -> ->.
      exists (mkBinding (Some a) id name false), a.
      split; [by rewrite lookup_app_r, Nat.sub_diag|]. done.
Qed.

Lemma bound_step w w' : bound w -> step w w' -> bound w'.
Proof.
  intros Hb [fuel a h name id Hh Hfree Hkw|n id v|n a h name v Hh Hch].
  - by eapply bound_new.
  - destruct (bound_registry_change n id v w Hb) as (w1 & -> & Hb1). done.
  - destruct (bound_field_write n a h name v w Hb Hh Hch) as (w1 & -> & Hb1). done.
Qed.

Lemma bound_reached w0 w : unbound w0 -> rtc step w0 w -> bound w.
Proof.
  intros H0 Hrun. apply bound_unbound in H0.
  induction Hrun as [|w1 w2 w3 Hs _ IH]; [done|].
  apply IH. by eapply bound_step.
Qed.

(** X3. Bound fields follow the registry. Start from a state with a
    registry and no subscription; bind fields nobody is hooked on, give the
    registry new extensions for any extension point, assign bound or unbound
    fields with notification (the assignment being a change), in any order
    and any number of times. In every state so reached, every binding whose
    listener is registered has its flag clear, and its field holds exactly
    what the registry holds for the binding's extension point (the empty
    list when the registry has nothing for it). *)
Theorem bound_fields_follow_the_registry w0 w :
  unbound w0 -> rtc step w0 w ->
  forall r b id,
    extension_registry w = Some r -> (b, id) ∈ listeners r ->
    exists bd a,
      bindings w !! b = Some bd /\ obj bd = Some a /\ extension_point bd = id /\
      _event_handled bd = false /\
      field w a (trait_name bd) = Some (default [] (extensions r !! id)).
Proof.
  intros H0 Hrun r b id Hr Hin.
  destruct (bound_reached w0 w H0 Hrun) as (_ & Ht & _ & Hs).
  destruct (Hs r b id Hr Hin) as (bd & a & Hb & Ha & Hflag & Hfld).
  destruct (Ht r b id Hr Hin) as (bd0 & _ & _ & Hb0 & Hid & _).
  assert (bd0 = bd) as -> by congruence.
  by exists bd, a.
Qed.

(** X4. In the states so reached nothing raises: [set_extensions] of the
    registry returns for every extension point and value, [set] returns for
    every object that exists, every field and value, with notification on or
    off, and binding one more field of an existing object returns the new
    binding (the field name being other than [set]'s own keyword). Two
    nested calls under [set_extensions] and three under [set] are all the
    depth these calls need. *)
Theorem reached_states_raise_nothing w0 w :
  unbound w0 -> rtc step w0 w ->
  (forall n id v, (registry_set_extensions (S (S n)) id v w).1 = Ok tt) /\
  (forall n a name v notify,
     is_Some (heap w !! a) ->
     (obj_set (S (S (S n))) (Some a) name v notify w).1 = Ok tt) /\
  (forall fuel a name id,
     is_Some (heap w !! a) -> name <> trait_change_notify ->
     (new fuel (Some a) name id w).1 = Ok (length (bindings w))).
Proof.
  intros H0 Hrun. pose proof (bound_reached w0 w H0 Hrun) as Hb.
  split; [|split].
  - intros n id v. by destruct (bound_registry_change n id v w Hb) as (w' & -> & _).
  - intros n a name v notify [h Hh].
    destruct (notify && changed h name (attrs h !! name) v) eqn:E.
    + apply andb_prop in E as [-> Hch].
      by destruct (bound_field_write n a h name v w Hb Hh Hch) as (w' & -> & _).
    + rewrite obj_set_unfold. msimpl. rewrite Hh. msimpl. by rewrite E.
  - intros fuel a name id [h Hh] Hkw. destruct Hb as ([r Hr] & _).
    by rewrite (new_run fuel a h r).
Qed.

(** X5. A registry change touches only its own extension point. Every
    listener being a binding alone on its field, after
    [registry.set_extensions(id, v)] the registry holds for every other
    extension point what it held; a field that is not the bound field of a
    listener of [id] holds what it held; and a binding listening to another
    extension point is unchanged, its field included. *)
Theorem change_touches_only_its_point n id v w r :
  tidy w -> extension_registry w = Some r ->
  (forall id', id' <> id ->
     registered (registry_set_extensions (S (S n)) id v w).2 id' = registered w id') /\
  (forall a name,
     (forall b bd, (b, id) ∈ listeners r -> bindings w !! b = Some bd ->
                   obj bd = Some a -> trait_name bd <> name) ->
     field (registry_set_extensions (S (S n)) id v w).2 a name = field w a name) /\
  (forall b id' bd a,
     (b, id') ∈ listeners r -> id' <> id ->
     bindings w !! b = Some bd -> obj bd = Some a ->
     bindings (registry_set_extensions (S (S n)) id v w).2 !! b = Some bd /\
     field (registry_set_extensions (S (S n)) id v w).2 a (trait_name bd)
       = field w a (trait_name bd)).
Proof.
  intros Ht Hr.
  assert (Hwired : forall b, b ∈ hooked id (listeners r) -> wired w id b)
    by (intros b; by apply tidy_wired).
  assert (Helse : forall a name,
     (forall b bd, (b, id) ∈ listeners r -> bindings w !! b = Some bd ->
                   obj bd = Some a -> trait_name bd <> name) ->
     field (registry_set_extensions (S (S n)) id v w).2 a name = field w a name).
  { intros a name Hnot.
    apply (registry_set_extensions_elsewhere n id v a name w r Hr Hwired).
    intros b bd Hb. apply Hnot. by apply elem_of_hooked. }
  destruct (registry_set_extensions_run n id v w r Hr Hwired)
    as (w' & t & Hrun & F & Hr' & Htr & Hq & Hfld & Hmem & Hout).
  split; [|split; [exact Helse|]].
  - intros id' Hne. rewrite Hrun. unfold registered. cbn [snd].
    rewrite Hr', Hr. cbn. by apply lookup_insert_ne.
  - intros b id' bd a Hin Hne Hb Ha. split.
    + rewrite Hrun. cbn [snd]. rewrite Hout; [done|].
      intros Hb2. apply elem_of_hooked in Hb2.
      destruct (Ht r b id Hr Hb2) as (bd1 & _ & _ & Hb1 & Hid1 & _).
      destruct (Ht r b id' Hr Hin) as (bd2 & _ & _ & Hb2' & Hid2 & _).
      congruence.
    + apply Helse. intros b1 bd1 Hb1in Hb1 Ha1 Hn1.
      destruct (tidy_fields_differ w r b1 b id id' bd1 bd a Ht Hr Hb1in Hin Hb1 Hb Ha1 Ha Hn1)
        as [_ E].
      by apply Hne.
Qed.


(** * Further properties of the plugin manager's contract *)

(** ** The test helper *)

Lemma call_each_keeps {A} (op : Manager.Plugin -> option Manager.Plugin)
    (f : Manager.Plugin -> A) :
  (forall p p', op p = Some p' -> f p' = f p) ->
  forall l s r, f <$> (Manager.call_each op l s).2 !! r = f <$> s !! r.
Proof.
  intros Hop. induction l as [|x l IH]; intros s r; [done|].
  cbn [Manager.call_each].
  destruct (s !! x) as [px|] eqn:Hx; [|by apply IH].
  destruct (op px) as [px'|] eqn:Hopx.
  - rewrite IH. destruct (decide (r = x)) as [->|Hne].
    + rewrite list_lookup_insert_eq by (by eapply lookup_lt_Some).
      rewrite Hx. cbn. f_equal. by apply Hop.
    + by rewrite list_lookup_insert_ne.
  - specialize (IH s r). by destruct (Manager.call_each op l s).
Qed.

Lemma call_each_failures (op : Manager.Plugin -> option Manager.Plugin)
    (can : Manager.Plugin -> bool) :
  (forall p, is_Some (op p) <-> can p = true) ->
  (forall p p', op p = Some p' -> can p' = can p) ->
  forall l s,
    (Manager.call_each op l s).1 = [] <->
    forall r p, r ∈ l -> s !! r = Some p -> can p = true.
Proof.
  intros Hcan Hkeep. induction l as [|x l IH]; intros s.
  { cbn. split; [|done]. intros _ r p Hr. by apply not_elem_of_nil in Hr. }
  cbn [Manager.call_each].
  destruct (s !! x) as [px|] eqn:Hx.
  - destruct (op px) as [px'|] eqn:Hopx.
    + assert (Hlt : x < length s) by (by eapply lookup_lt_Some).
      assert (Hpx : can px = true) by (apply Hcan; by rewrite Hopx).
      rewrite IH. split.
      * intros H r p Hr Hs. destruct (decide (r = x)) as [->|Hne]; [congruence|].
        apply elem_of_cons in Hr as [|Hr]; [done|].
        apply (H r p Hr). by rewrite list_lookup_insert_ne.
      * intros H r p Hr Hs. destruct (decide (r = x)) as [->|Hne].
        -- rewrite list_lookup_insert_eq in Hs by done. injection Hs as <-.
           by rewrite (Hkeep px px').
        -- rewrite list_lookup_insert_ne in Hs by done.
           apply (H r p); [by right|done].
    + destruct (Manager.call_each op l s) as [failed s'] eqn:E. cbn [fst].
      split; [done|]. intros H.
      assert (Hpx : can px = true) by (apply (H x px); [by left|done]).
      apply Hcan in Hpx. rewrite Hopx in Hpx. by destruct Hpx.
  - rewrite IH. split.
    + intros H r p Hr Hs. apply elem_of_cons in Hr as [->|Hr]; [congruence|].
      by apply (H r p).
    + intros H r p Hr. apply H. by right.
Qed.

Lemma start_parts m s :
  Manager.start m s =
  (Manager.report (Manager.call_each Manager.plugin_start (Manager.plugins m) s).1,
   (Manager.call_each Manager.plugin_start (Manager.plugins m) s).2).
Proof. unfold Manager.start. by destruct (Manager.call_each _ _ _). Qed.

Lemma stop_parts m s :
  Manager.stop m s =
  (Manager.report (Manager.call_each Manager.plugin_stop (rev (Manager.plugins m)) s).1,
   (Manager.call_each Manager.plugin_stop (rev (Manager.plugins m)) s).2).
Proof. unfold Manager.stop. by destruct (Manager.call_each _ _ _). Qed.

Lemma returned_report failed :
  Manager.returned (Manager.report failed) = true <-> failed = [].
Proof. by destruct failed. Qed.

Lemma elem_of_rev {A} (x : A) l : x ∈ rev l <-> x ∈ l.
Proof. by rewrite !list_elem_of_In, <- in_rev. Qed.

Lemma found_in_pass (flag : Manager.Plugin -> bool) m s s' :
  (forall r, Manager.id <$> s' !! r = Manager.id <$> s !! r) ->
  (forall r p, r ∈ Manager.plugins m -> s !! r = Some p ->
     exists p', s' !! r = Some p' /\ flag p' = true) ->
  forall name, name ∈ Manager.ids m s -> Manager.found_with flag m s' name = true.
Proof.
  intros Hid Hflag name Hin.
  apply list_elem_of_omap in Hin as (r & Hr & Hname).
  unfold Manager.found_with, Manager.get_plugin.
  destruct (find _ _) as [r0|] eqn:Hfind.
  - apply find_some in Hfind as [Hr0 Hpass]. apply list_elem_of_In in Hr0.
    unfold Manager.passes, Manager.id_at in Hpass.
    destruct (s' !! r0) as [p0'|] eqn:Hs'; [|done].
    pose proof (Hid r0) as E. rewrite Hs' in E.
    destruct (s !! r0) as [p0|] eqn:Hs0; [|done].
    destruct (Hflag r0 p0 Hr0 Hs0) as (p' & Hp' & Hf). congruence.
  - exfalso. pose proof (find_none _ _ Hfind r) as Hno.
    rewrite <- list_elem_of_In in Hno. specialize (Hno Hr).
    unfold Manager.passes, Manager.id_at in Hno, Hname.
    rewrite Hid, Hname in Hno. by rewrite String.eqb_refl in Hno.
Qed.

Lemma plugin_start_spec p :
  (is_Some (Manager.plugin_start p) <-> Manager.start_succeeds p = true) /\
  forall p', Manager.plugin_start p = Some p' ->
    Manager.id p' = Manager.id p /\ Manager.started p' = true /\
    Manager.start_succeeds p' = Manager.start_succeeds p /\
    Manager.stop_succeeds p' = Manager.stop_succeeds p.
Proof.
  unfold Manager.plugin_start. destruct (Manager.start_succeeds p) eqn:E.
  - split; [by split|]. by intros p' [= <-].
  - split; [|done]. split; [by intros [? ?]|done].
Qed.

Lemma plugin_stop_spec p :
  (is_Some (Manager.plugin_stop p) <-> Manager.stop_succeeds p = true) /\
  forall p', Manager.plugin_stop p = Some p' ->
    Manager.id p' = Manager.id p /\ Manager.stopped p' = true /\
    Manager.start_succeeds p' = Manager.start_succeeds p /\
    Manager.stop_succeeds p' = Manager.stop_succeeds p.
Proof.
  unfold Manager.plugin_stop. destruct (Manager.stop_succeeds p) eqn:E.
  - split; [by split|]. by intros p' [= <-].
  - split; [|done]. split; [by intros [? ?]|done].
Qed.

(** X6. What a passing [_test_start_and_stop] tells. The helper passes for
    a manager and an expected list exactly when the expected list is the
    list of the ids of the plugins the manager holds, in the manager's
    order, and no held plugin's start or stop fails. In particular it
    passes with the manager's own ids whenever every held plugin can start
    and stop, also when two held plugins share an id. *)
Theorem test_start_and_stop_passes_iff m s expected :
  Manager._test_start_and_stop m s expected = true <->
  expected = Manager.ids m s /\
  forall r p, r ∈ Manager.plugins m -> s !! r = Some p ->
    Manager.start_succeeds p = true /\ Manager.stop_succeeds p = true.
Proof.
  unfold Manager._test_start_and_stop.
  rewrite start_parts. cbn [fst snd]. rewrite stop_parts. cbn [fst snd].
  set (l := Manager.plugins m).
  set (s1 := (Manager.call_each Manager.plugin_start l s).2).
  set (s2 := (Manager.call_each Manager.plugin_stop (rev l) s1).2).
  rewrite !andb_true_iff, bool_decide_eq_true, !returned_report.
  rewrite (call_each_failures Manager.plugin_start Manager.start_succeeds);
    [|intros p; apply plugin_start_spec|intros p p' H; by destruct (proj2 (plugin_start_spec p) p' H) as (? & ? & ? & ?)].
  rewrite (call_each_failures Manager.plugin_stop Manager.stop_succeeds);
    [|intros p; apply plugin_stop_spec|intros p p' H; by destruct (proj2 (plugin_stop_spec p) p' H) as (? & ? & ? & ?)].
  assert (Hid1 : forall r, Manager.id <$> s1 !! r = Manager.id <$> s !! r).
  { apply call_each_keeps. intros p p' H. by destruct (proj2 (plugin_start_spec p) p' H) as (? & ? & ? & ?). }
  assert (Hid2 : forall r, Manager.id <$> s2 !! r = Manager.id <$> s1 !! r).
  { apply call_each_keeps. intros p p' H. by destruct (proj2 (plugin_stop_spec p) p' H) as (? & ? & ? & ?). }
  assert (Hstop1 : forall r, Manager.stop_succeeds <$> s1 !! r = Manager.stop_succeeds <$> s !! r).
  { apply call_each_keeps. intros p p' H. by destruct (proj2 (plugin_start_spec p) p' H) as (? & ? & ? & ?). }
  assert (Hids1 : Manager.ids m s1 = Manager.ids m s).
  { unfold Manager.ids. apply list_omap_ext, Forall2_same_length_lookup_2; [done|].
    intros i x y Hx Hy. assert (x = y) as -> by congruence. apply Hid1. }
  split.
  - intros [[[[-> Hstart] _] Hstop] _]. split; [done|].
    intros r p Hr Hs. split; [by apply (Hstart r p)|].
    pose proof (Hstop1 r) as E. rewrite Hs in E.
    destruct (s1 !! r) as [p1|] eqn:Hs1; [|done].
    cbn in E. injection E as <-. apply (Hstop r p1); [by apply (proj2 (elem_of_rev r l))|done].
  - intros [-> Hall].
    assert (Hstart : forall r p, r ∈ l -> s !! r = Some p -> Manager.start_succeeds p = true)
      by (intros r p Hr Hs; by destruct (Hall r p Hr Hs)).
    assert (Hstop : forall r p, r ∈ rev l -> s1 !! r = Some p -> Manager.stop_succeeds p = true).
    { intros r p1 Hr Hs1. apply (proj1 (elem_of_rev r l)) in Hr.
      pose proof (Hstop1 r) as E. rewrite Hs1 in E.
      destruct (s !! r) as [p|] eqn:Hs; [|done].
      cbn in E. injection E as ->. by destruct (Hall r p Hr Hs). }
    split; [split; [split; [split; [done|done]|]|done]|].
    + apply forallb_forall. intros name Hin. apply list_elem_of_In in Hin.
      apply (found_in_pass _ m s s1 Hid1); [|done].
      apply (call_each_pass Manager.plugin_start Manager.started).
      * intros p p' H. by destruct (proj2 (plugin_start_spec p) p' H) as (? & ? & ? & ?).
      * by apply (call_each_failures Manager.plugin_start Manager.start_succeeds);
          [intros p; apply plugin_start_spec|intros p p' H; by destruct (proj2 (plugin_start_spec p) p' H) as (? & ? & ? & ?)|].
    + apply forallb_forall. intros name Hin. apply list_elem_of_In in Hin.
      rewrite <- Hids1 in Hin.
      apply (found_in_pass _ m s1 s2 Hid2); [|done].
      intros r p Hr. apply (proj2 (elem_of_rev r l)) in Hr. revert r p Hr.
      apply (call_each_pass Manager.plugin_stop Manager.stopped).
      * intros p p' H. by destruct (proj2 (plugin_stop_spec p) p' H) as (? & ? & ? & ?).
      * by apply (call_each_failures Manager.plugin_stop Manager.stop_succeeds);
          [intros p; apply plugin_stop_spec|intros p p' H; by destruct (proj2 (plugin_stop_spec p) p' H) as (? & ? & ? & ?)|].
Qed.

(** ** Plain ids and trailing stars *)

Lemma translate_from_plain l rest :
  forallb (fun c => negb (special c)) l = true ->
  Manager.translate_from 0 (l ++ rest) = map Manager.Literal l ++ Manager.translate_from 0 rest.
Proof.
  induction l as [|c l IH]; [done|]. cbn [forallb]. rewrite andb_true_iff.
  intros [Hc Hl]. cbn [app Manager.translate_from map].
  unfold special in Hc. apply negb_true_iff in Hc.
  apply orb_false_iff in Hc as [Hc H3]. apply orb_false_iff in Hc as [H1 H2].
  rewrite H1, H2, H3. by rewrite IH.
Qed.

Lemma glob_match_literals l g s :
  Manager.glob_match (map Manager.Literal l ++ g) s = true <->
  exists s', s = l ++ s' /\ Manager.glob_match g s' = true.
Proof.
  revert s. induction l as [|c l IH]; intros s.
  - cbn [map app]. split; [by exists s|]. by intros (s' & -> & H).
  - cbn [map app Manager.glob_match]. destruct s as [|c' s].
    + split; [done|]. by intros (s' & ? & _).
    + rewrite andb_true_iff, IH, Ascii.eqb_eq. split.
      * intros [-> (s' & -> & H)]. by exists s'.
      * intros (s' & [= -> ->] & H). split; [done|]. by exists s'.
Qed.

Lemma glob_match_nil s : Manager.glob_match [] s = true <-> s = [].
Proof. by destruct s. Qed.

Lemma glob_match_star s : Manager.glob_match [Manager.Star] s = true.
Proof.
  cbn [Manager.glob_match]. induction s as [|c s IH]; [done|].
  by rewrite IH, orb_true_r.
Qed.

Lemma list_ascii_of_string_app p q :
  String.list_ascii_of_string (String.append p q) =
  String.list_ascii_of_string p ++ String.list_ascii_of_string q.
Proof.
  induction p as [|c p IH]; [done|].
  change (String.list_ascii_of_string (String.append (String c p) q))
    with (c :: String.list_ascii_of_string (String.append p q)).
  by rewrite IH.
Qed.

Lemma list_ascii_of_string_inj p q :
  String.list_ascii_of_string p = String.list_ascii_of_string q -> p = q.
Proof.
  intros H. rewrite <- (String.string_of_list_ascii_of_string p),
    <- (String.string_of_list_ascii_of_string q). by rewrite H.
Qed.

Lemma fnmatch_plain name pat :
  plain pat = true -> Manager.fnmatch name pat = true <-> name = pat.
Proof.
  intros Hp. unfold Manager.fnmatch, Manager.translate.
  rewrite <- (app_nil_r (String.list_ascii_of_string pat)).
  rewrite translate_from_plain by done. cbn [Manager.translate_from].
  rewrite glob_match_literals. split.
  - intros (s' & Hs & Hnil). apply glob_match_nil in Hnil as ->.
    apply list_ascii_of_string_inj. by rewrite Hs, app_nil_r.
  - intros ->. exists []. by rewrite !app_nil_r.
Qed.

Lemma fnmatch_prefix name p :
  plain p = true ->
  Manager.fnmatch name (String.append p "*") = true <-> exists rest, name = String.append p rest.
Proof.
  intros Hp. unfold Manager.fnmatch, Manager.translate.
  rewrite list_ascii_of_string_app, translate_from_plain by done.
  change (Manager.translate_from 0 (String.list_ascii_of_string "*"))
    with [Manager.Star].
  rewrite glob_match_literals. split.
  - intros (s' & Hs & _). exists (String.string_of_list_ascii s').
    apply list_ascii_of_string_inj.
    by rewrite list_ascii_of_string_app, String.list_ascii_of_string_of_list_ascii.
  - intros (rest & ->). exists (String.list_ascii_of_string rest).
    split; [apply list_ascii_of_string_app|apply glob_match_star].
Qed.

Lemma create_holds s resolve explicit path inc exc r :
  r ∈ Manager.plugins (Manager.create s resolve explicit path inc exc) <->
  r ∈ explicit ++ concat (map resolve path) /\
  exists name,
    Manager.id_at s r = Some name /\
    Manager.included inc name = true /\ Manager.not_excluded exc name = true.
Proof.
  unfold Manager.create. cbn [Manager.plugins].
  rewrite filter_twice, !list_elem_of_In, filter_In, andb_true_iff.
  unfold Manager.passes.
  destruct (Manager.id_at s r) as [name|].
  - split.
    + intros [Hin [Hi He]]. split; [done|]. by exists name.
    + intros [Hin (name' & [= <-] & Hi & He)]. done.
  - split; [by intros [_ [? _]]|]. by intros [_ (? & ? & _)].
Qed.

(** X7. Lists of plain ids select by equality. When no pattern of the
    include and exclude lists contains [*], [?] or an opening bracket, as in
    the two tests that pass lists of ids, the manager holds exactly the
    candidates whose id is in the include list (every candidate when the list
    is empty or left out) and is not in the exclude list. *)
Theorem plain_patterns_select_by_id s resolve explicit path inc exc :
  (forall pat, pat ∈ default [] inc -> plain pat = true) ->
  (forall pat, pat ∈ default [] exc -> plain pat = true) ->
  forall r,
    r ∈ Manager.plugins (Manager.create s resolve explicit path inc exc) <->
    r ∈ explicit ++ concat (map resolve path) /\
    exists name,
      Manager.id_at s r = Some name /\
      (default [] inc = [] \/ name ∈ default [] inc) /\
      name ∉ default [] exc.
Proof.
  intros Hinc Hexc r. rewrite create_holds.
  split; intros [Hin (name & Hid & Hi & He)]; (split; [done|]); exists name;
    (split; [done|]).
  - apply included_spec in Hi. apply not_excluded_spec in He. split.
    + destruct Hi as [|(pat & Hpat & Hm)]; [by left|]. right.
      apply (fnmatch_plain name pat (Hinc pat Hpat)) in Hm. by subst.
    + intros Hname. destruct He as [He|He].
      * rewrite He in Hname. by apply not_elem_of_nil in Hname.
      * pose proof (He name Hname) as Hno.
        rewrite (proj2 (fnmatch_plain name name (Hexc name Hname)) eq_refl) in Hno. done.
  - split.
    + apply included_spec. destruct Hi as [|Hname]; [by left|]. right.
      exists name. split; [done|]. by apply (fnmatch_plain name name (Hinc name Hname)).
    + apply not_excluded_spec. right. intros pat Hpat.
      destruct (Manager.fnmatch name pat) eqn:Hm; [|done].
      apply (fnmatch_plain name pat (Hexc pat Hpat)) in Hm. by subst.
Qed.

(** X8. A plain prefix followed by [*] selects by prefix, as in the two
    wildcard tests: an id matches [p*] exactly when it starts with [p]; a
    manager built with [include=[p*]] holds exactly the candidates whose id
    starts with [p], and one built with [exclude=[p*]] exactly the
    candidates whose id does not. *)
Theorem trailing_star_selects_by_prefix s resolve explicit path p :
  plain p = true ->
  (forall name,
     Manager.fnmatch name (String.append p "*") = true <->
     exists rest, name = String.append p rest) /\
  (forall r,
     r ∈ Manager.plugins
           (Manager.create s resolve explicit path (Some [String.append p "*"]) None) <->
     r ∈ explicit ++ concat (map resolve path) /\
     exists rest, Manager.id_at s r = Some (String.append p rest)) /\
  (forall r,
     r ∈ Manager.plugins
           (Manager.create s resolve explicit path None (Some [String.append p "*"])) <->
     r ∈ explicit ++ concat (map resolve path) /\
     exists name, Manager.id_at s r = Some name /\
                  forall rest, name <> String.append p rest).
Proof.
  intros Hp. split; [intros name; by apply fnmatch_prefix|]. split; intros r.
  - rewrite create_holds. split.
    + intros [Hin (name & Hid & Hi & _)]. split; [done|].
      apply included_spec in Hi as [|(pat & Hpat & Hm)]; [done|].
      apply list_elem_of_singleton in Hpat as ->.
      apply fnmatch_prefix in Hm as (rest & ->); [|done]. by exists rest.
    + intros [Hin (rest & Hid)]. split; [done|]. eexists. split; [done|]. split; [|done].
      apply included_spec. right. eexists. split; [by apply list_elem_of_singleton|].
      apply fnmatch_prefix; [done|]. by exists rest.
  - rewrite create_holds. split.
    + intros [Hin (name & Hid & _ & He)]. split; [done|]. exists name. split; [done|].
      intros rest ->. apply not_excluded_spec in He as [|He]; [done|].
      pose proof (He _ (proj2 (list_elem_of_singleton _ _) eq_refl)) as Hno.
      rewrite (proj2 (fnmatch_prefix (String.append p rest) p Hp)) in Hno; [done|].
      by exists rest.
    + intros [Hin (name & Hid & Hno)]. split; [done|]. exists name. split; [done|].
      split; [done|]. apply not_excluded_spec. right. intros pat Hpat.
      apply list_elem_of_singleton in Hpat as ->.
      destruct (Manager.fnmatch name _) eqn:Hm; [|done].
      apply fnmatch_prefix in Hm as (rest & ->); [|done]. by destruct (Hno rest).
Qed.


(** * The further properties on the example states *)

Lemma w0_unbound : unbound w0.
Proof.
  split; [by exists r0|].
  intros a h Hh. unfold w0 in Hh. cbn [heap] in Hh.
  apply lookup_singleton_Some in Hh as [_ <-]. done.
Defined.

Lemma w1_step : step w0 w1.
Proof. exact (step_bind w0 0 7 h0 "views" "views" eq_refl eq_refl ltac:(done)). Defined.

Lemma w2_step : step w1 w2.
Proof. refine (step_bind w1 0 7 h1 "mirror" "views" eq_refl eq_refl _). done. Defined.

Lemma w3_step : step w2 w3.
Proof. refine (step_bind w2 0 7 _ "actions" "actions" eq_refl eq_refl _). done. Defined.

Lemma w4_step : step w3 w4.
Proof. exact (step_registry w3 0 "views" ["c"]). Defined.

Lemma w5_step : step w4 w5.
Proof.
  refine (step_field w4 0 7 _ "mirror" ["x"] _ _); vm_compute; reflexivity.
Defined.

Lemma w3_reached : rtc step w0 w3.
Proof.
  apply (rtc_l step w0 w1 w3 w1_step).
  apply (rtc_l step w1 w2 w3 w2_step).
  apply (rtc_once w2 w3 w3_step).
Defined.

Lemma w5_reached : rtc step w0 w5.
Proof.
  apply (rtc_l step w0 w1 w5 w1_step).
  apply (rtc_l step w1 w2 w5 w2_step).
  apply (rtc_l step w2 w3 w5 w3_step).
  apply (rtc_l step w3 w4 w5 w4_step).
  apply (rtc_once w4 w5 w5_step).
Defined.

Lemma w3_tidy : tidy w3.
Proof. by destruct (bound_reached w0 w3 w0_unbound w3_reached) as (_ & Ht & _). Defined.

(** X2 on [w1]: the listener returns and the flag is clear. *)
Lemma normal_return_sets_no_flag_witness :
  handled (on_extension_point_changed 1 0 "views" ["c"] ["a"; "b"] w1).2 0 = false.
Proof.
  exact (proj1 (proj2 (proj2 (proj2
           (normal_return_sets_no_flag 1 w1
              (on_extension_point_changed 1 0 "views" ["c"] ["a"; "b"] w1).2)))
           0 "views" ["c"] ["a"; "b"] eq_refl)).
Defined.

(** X3 on [w5]: the first binding for ["views"] holds what the user wrote
    into the field of the second. *)
Lemma bound_fields_follow_the_registry_witness :
  exists bd a,
    bindings w5 !! 0 = Some bd /\ obj bd = Some a /\ extension_point bd = "views" /\
    _event_handled bd = false /\
    field w5 a (trait_name bd) = Some ["x"].
Proof.
  refine (bound_fields_follow_the_registry w0 w5 w0_unbound w5_reached r5 0 "views"
            eq_refl _).
  apply list_elem_of_here.
Defined.

Lemma w5_has_object : is_Some (heap w5 !! 7).
Proof. eexists; vm_compute; reflexivity. Defined.

(** X4 on [w5]. *)
Lemma reached_states_raise_nothing_witness :
  (registry_set_extensions 2 "actions" ["d"] w5).1 = Ok tt /\
  (obj_set 3 (Some 7) "views" ["y"] true w5).1 = Ok tt /\
  (new 0 (Some 7) "colour" "views" w5).1 = Ok 3.
Proof.
  destruct (reached_states_raise_nothing w0 w5 w0_unbound w5_reached) as (H1 & H2 & H3).
  split; [exact (H1 0 "actions" ["d"])|]. split.
  - exact (H2 0 7 "views" ["y"] true w5_has_object).
  - refine (H3 0 7 "colour" "views" w5_has_object _). done.
Defined.

(** X5 on [w3]: new extensions for ["views"] leave ["actions"] and the
    field bound to it as they were. *)
Lemma change_touches_only_its_point_witness :
  registered (registry_set_extensions 2 "views" ["c"] w3).2 "actions"
    = registered w3 "actions" /\
  bindings (registry_set_extensions 2 "views" ["c"] w3).2 !! 2
    = Some (mkBinding (Some 7) "actions" "actions" false) /\
  field (registry_set_extensions 2 "views" ["c"] w3).2 7 "actions"
    = field w3 7 "actions".
Proof.
  destruct (change_touches_only_its_point 0 "views" ["c"] w3 r3 w3_tidy eq_refl)
    as (H1 & _ & H3).
  split; [by apply H1|].
  refine (H3 2 "actions" (mkBinding (Some 7) "actions" "actions" false) 7 _ _
            eq_refl eq_refl); [|done].
  apply list_elem_of_further, list_elem_of_further, list_elem_of_here.
Defined.

(** X7 on the fixture: the lists of ids of the two tests. *)
Lemma plain_patterns_select_by_id_witness :
  0 ∈ Manager.plugins (Manager.canopy (Some ["acme.foo"; "acme.bar"]) None) /\
  1 ∈ Manager.plugins (Manager.canopy None (Some ["acme.foo"; "acme.baz"])).
Proof.
  split.
  - apply (plain_patterns_select_by_id Manager.eggs Manager.find_eggs []
             [Manager.eggs_dir] (Some ["acme.foo"; "acme.bar"]) None).
    + intros pat Hin. apply elem_of_cons in Hin as [->|Hin]; [reflexivity|].
      apply list_elem_of_singleton in Hin as ->. reflexivity.
    + intros pat Hin. by apply not_elem_of_nil in Hin.
    + split; [apply list_elem_of_here|].
      exists "acme.foo". split; [reflexivity|]. split.
      * right. apply list_elem_of_here.
      * apply not_elem_of_nil.
  - apply (plain_patterns_select_by_id Manager.eggs Manager.find_eggs []
             [Manager.eggs_dir] None (Some ["acme.foo"; "acme.baz"])).
    + intros pat Hin. by apply not_elem_of_nil in Hin.
    + intros pat Hin. apply elem_of_cons in Hin as [->|Hin]; [reflexivity|].
      apply list_elem_of_singleton in Hin as ->. reflexivity.
    + split; [apply list_elem_of_further, list_elem_of_here|].
      exists "acme.bar". split; [reflexivity|]. split; [by left|].
      intros Hin. apply elem_of_cons in Hin as [Hin|Hin]; [discriminate Hin|].
      apply list_elem_of_singleton in Hin. discriminate Hin.
Defined.

(** X8 on the fixture: the pattern of the two wildcard tests. *)
Lemma trailing_star_selects_by_prefix_witness :
  Manager.fnmatch "acme.bar" "acme.b*" = true /\
  1 ∈ Manager.plugins (Manager.canopy (Some ["acme.b*"]) None) /\
  0 ∈ Manager.plugins (Manager.canopy None (Some ["acme.b*"])).
Proof.
  destruct (trailing_star_selects_by_prefix Manager.eggs Manager.find_eggs []
              [Manager.eggs_dir] "acme.b" eq_refl) as (H1 & H2 & H3).
  split; [apply H1; by exists "ar"|]. split.
  - apply H2. split; [apply list_elem_of_further, list_elem_of_here|].
    by exists "ar".
  - apply H3. split; [apply list_elem_of_here|].
    exists "acme.foo". split; [reflexivity|]. intros rest E. discriminate E.
Defined.
